(** * mdtodo: a shallow embedding of [src/mdtodo/mdtodo.py]

    Python [str] values are modelled as [list ascii]: a character is a code
    point in 0..255 (Latin-1), classified the way Python 3's [re] module and
    [str] methods classify it for [str] patterns. *)

From Stdlib Require Import ZArith Lia.
From stdpp Require Import base list gmap sets strings sorting.
From Stdlib Require Import Ascii.
From Stdlib Require String.
Import ListNotations.

Abbreviation str := (list ascii).

Definition lit (s : String.string) : str := String.list_ascii_of_string s.

(** ** Character classes *)

(** Code points for which [str.isspace()] holds, which is also the set
    matched by [\s] in a [str] pattern. *)
Definition is_space (c : ascii) : bool :=
  let n := nat_of_ascii c in
  ((9 <=? n) && (n <=? 13)) || ((28 <=? n) && (n <=? 32))
  || (n =? 133) || (n =? 160).

(** Code points matched by [\w] in a [str] pattern: [str.isalnum()] or
    underscore. *)
Definition is_word (c : ascii) : bool :=
  let n := nat_of_ascii c in
  ((48 <=? n) && (n <=? 57)) || ((65 <=? n) && (n <=? 90))
  || ((97 <=? n) && (n <=? 122)) || (n =? 95)
  || (n =? 170) || (n =? 178) || (n =? 179) || (n =? 181) || (n =? 185)
  || (n =? 186) || ((188 <=? n) && (n <=? 190))
  || ((192 <=? n) && (n <=? 214)) || ((216 <=? n) && (n <=? 246))
  || ((248 <=? n) && (n <=? 255)).

(** Line boundaries of [str.splitlines()]. *)
Definition is_linebreak (c : ascii) : bool :=
  let n := nat_of_ascii c in
  ((10 <=? n) && (n <=? 13)) || ((28 <=? n) && (n <=? 30)) || (n =? 133).

Definition newline : ascii := ascii_of_nat 10.
Definition cr : ascii := ascii_of_nat 13.

(** ** [str.splitlines()] *)

Fixpoint splitlines_acc (cur : str) (s : str) : list str :=
  match s with
  | [] => match cur with [] => [] | _ => [rev cur] end
  | c :: s' =>
      if is_linebreak c then
        if ascii_dec c cr then
          match s' with
          | c' :: s'' => if ascii_dec c' newline
                         then rev cur :: splitlines_acc [] s''
                         else rev cur :: splitlines_acc [] s'
          | [] => rev cur :: splitlines_acc [] s'
          end
        else rev cur :: splitlines_acc [] s'
      else splitlines_acc (c :: cur) s'
  end.

Definition splitlines (s : str) : list str := splitlines_acc [] s.

(** ** [TODO_PATTERN = r"- \[([ xX])\] (.+?)(?:\s+#(\w+))?\s*$"]

    [re.match] anchors the pattern at the start of the line.  After the
    fixed prefix [- [m] ], the lazy group [(.+?)] tries texts of length
    1, 2, ...; for each length the optional (greedy) group
    [(?:\s+#(\w+))] is tried first, then skipped.  Each try is followed by
    [\s*$].  Since [\s] contains the newline, [\s*$] matches a suffix
    exactly when the suffix is all whitespace.  Inside the optional group,
    backtracking cannot find a second way: [\s+] must stop at the [#], and
    [\w+] must stop where [\s*$] begins. *)

(** Greedy repetition of a character class: the longest prefix of [s] in
    the class, and what follows it. *)
Fixpoint span (p : ascii -> bool) (s : str) : str * str :=
  match s with
  | c :: s' => if p c then let (a, b) := span p s' in (c :: a, b) else ([], s)
  | [] => ([], [])
  end.

(** The optional group followed by [\s*$], at a suffix [s]: the captured
    category when it matches. *)
Definition match_tag (s : str) : option str :=
  match span is_space s with
  | (_ :: _, "#"%char :: rest) =>
      match span is_word rest with
      | (w, rest') =>
          match w with
          | [] => None
          | _ :: _ => if forallb is_space rest' then Some w else None
          end
      end
  | _ => None
  end.

(** The lazy loop of [(.+?)]: [acc] holds the text consumed so far,
    reversed; the dot matches anything but a newline. *)
Fixpoint scan (acc : str) (r : str) : option (str * option str) :=
  match match_tag r with
  | Some w => Some (rev acc, Some w)
  | None =>
      if forallb is_space r then Some (rev acc, None)
      else match r with
           | c :: r' => if ascii_dec c newline then None else scan (c :: acc) r'
           | [] => None
           end
  end.

(** [(.+?)(?:\s+#(\w+))?\s*$] on the rest of the line after [- [m] ]. *)
Definition text_and_tag (r : str) : option (str * option str) :=
  match r with
  | c :: r' => if ascii_dec c newline then None else scan [c] r'
  | [] => None
  end.

Definition is_mark (m : ascii) : bool :=
  match m with " "%char | "x"%char | "X"%char => true | _ => false end.

(** [str.lower()] on one character (only its value on a mark matters). *)
Definition ascii_lower (c : ascii) : ascii :=
  let n := nat_of_ascii c in
  if (65 <=? n) && (n <=? 90) then ascii_of_nat (n + 32) else c.

(** [match.groups()] of [re.match(TODO_PATTERN, line)]. *)
Definition todo_match (line : str) : option (ascii * str * option str) :=
  match line with
  | "-"%char :: " "%char :: "["%char :: m :: "]"%char :: " "%char :: r =>
      if is_mark m then
        match text_and_tag r with
        | Some (t, cat) => Some (m, t, cat)
        | None => None
        end
      else None
  | _ => None
  end.

(** ** [class TodoItem] *)

Record TodoItem := mkItem { text : str; done : bool; category : str }.

Definition uncategorized : str := lit "uncategorized".

(** [category or "uncategorized"]: the empty string is falsy. *)
Definition or_uncategorized (c : str) : str :=
  match c with [] => uncategorized | _ => c end.

(** [TodoItem(text, done, category)] *)
Definition new_TodoItem (t : str) (d : bool) (c : str) : TodoItem :=
  mkItem t d (or_uncategorized c).

(** [TodoItem.toggle] *)
Definition toggle (it : TodoItem) : TodoItem :=
  mkItem (text it) (negb (done it)) (category it).

Definition str_eqb (a b : str) : bool := bool_decide (a = b).

(** [TodoItem.to_markdown] *)
Definition to_markdown (it : TodoItem) : str :=
  let mark := if done it then "x"%char else " "%char in
  let category_text :=
    if negb (str_eqb (category it) []) && negb (str_eqb (category it) uncategorized)
    then lit " #" ++ category it else [] in
  lit "- [" ++ mark :: lit "] " ++ text it ++ category_text.

(** ** The parsing loop of [TodoList.load_todos] *)

(** One line: [re.match(TODO_PATTERN, line)], then
    [done = mark.lower() == "x"], [category = category or "uncategorized"],
    [TodoItem(text, done, category)]. *)
Definition parse_line (line : str) : option TodoItem :=
  match todo_match line with
  | Some (mark, t, cat) =>
      let d := if ascii_dec (ascii_lower mark) "x"%char then true else false in
      let c := match cat with Some c => or_uncategorized c | None => uncategorized end in
      Some (new_TodoItem t d c)
  | None => None
  end.

(** [for line in content.splitlines(): match = ...; if match: ...]:
    the items of the matching lines, in order. *)
Fixpoint parse_lines (lines : list str) : list TodoItem :=
  match lines with
  | [] => []
  | l :: ls =>
      match parse_line l with
      | Some it => it :: parse_lines ls
      | None => parse_lines ls
      end
  end.

Definition parse_content (content : str) : list TodoItem :=
  parse_lines (splitlines content).

(** ** The file body written by [TodoList.save_todos] *)

(** [file_name.replace('.md', '')]: every non-overlapping occurrence,
    left to right. *)
Fixpoint strip_md (s : str) : str :=
  match s with
  | "."%char :: "m"%char :: "d"%char :: s' => strip_md s'
  | c :: s' => c :: strip_md s'
  | [] => []
  end.

(** [str.lower()] on one Latin-1 character: [A-Z], [À-Ö] and [Ø-Þ] go to
    the letter 32 code points above. *)
Definition latin1_lower (c : ascii) : ascii :=
  let n := nat_of_ascii c in
  if ((65 <=? n) && (n <=? 90)) || ((192 <=? n) && (n <=? 214))
     || ((216 <=? n) && (n <=? 222))
  then ascii_of_nat (n + 32) else c.

(** The title case that [str.capitalize()] gives the first character:
    [a-z], [à-ö] and [ø-þ] go to the letter 32 code points below and [ß]
    to [Ss].  The title cases of [µ] and [ÿ] (U+039C and U+0178) lie
    outside the characters of this model: those two are kept. *)
Definition latin1_title (c : ascii) : str :=
  let n := nat_of_ascii c in
  if ((97 <=? n) && (n <=? 122)) || ((224 <=? n) && (n <=? 246))
     || ((248 <=? n) && (n <=? 254))
  then [ascii_of_nat (n - 32)]
  else if n =? 223 then lit "Ss" else [c].

(** [str.capitalize()] *)
Definition capitalize (s : str) : str :=
  match s with
  | c :: s' => latin1_title c ++ map latin1_lower s'
  | [] => []
  end.

Definition nl : str := [newline].

(** [f.write(f"{todo.to_markdown()}\n")] for each todo. *)
Definition write_items (l : list TodoItem) : str :=
  concat (map (fun it => to_markdown it ++ nl) l).

(** The text written to [file_name] for the todos grouped into it. *)
Definition render_file (file_name : str) (l : list TodoItem) : str :=
  let done_todos := filter (fun it => done it = true) l in
  let not_done_todos := filter (fun it => done it = false) l in
  let category_name := strip_md file_name in
  lit "# " ++ capitalize category_name ++ lit " Tasks" ++ nl ++ nl
  ++ (match not_done_todos with
      | [] => []
      | _ => lit "## Active" ++ nl ++ nl ++ write_items not_done_todos ++ nl
      end)
  ++ (match done_todos with
      | [] => []
      | _ => lit "## Completed" ++ nl ++ nl ++ write_items done_todos
      end).

(** ** Exceptions and a state-and-exception monad

    A raised exception keeps the state mutated up to the raise, as a
    Python method that mutates [self] and then raises does. *)

Inductive exn :=
| IOError (file_name : str)   (* OSError (alias IOError) from [open] on a file *)
| UnicodeDecodeError          (* [f.read()] on bytes that are not UTF-8 *)
| ValueError                  (* [open] on a path with an embedded null byte *)
| IndexError                  (* list index out of range *)
| NameError                   (* [urwid.connect_signal] with an unknown signal *)
| ExitMainLoop.               (* urwid.ExitMainLoop *)

Inductive res (A : Type) := Ok (a : A) | Raise (e : exn).
Arguments Ok {A} a.
Arguments Raise {A} e.

Definition M (S A : Type) := S -> S * res A.

Section Monad.
Context {S : Type}.
Definition ret {A} (a : A) : M S A := fun s => (s, Ok a).
Definition bind {A B} (m : M S A) (k : A -> M S B) : M S B :=
  fun s => match m s with
           | (s', Ok a) => k a s'
           | (s', Raise e) => (s', Raise e)
           end.
Definition raise {A} (e : exn) : M S A := fun s => (s, Raise e).
Definition get : M S S := fun s => (s, Ok s).
Definition put (s : S) : M S unit := fun _ => (s, Ok tt).
Definition modify (f : S -> S) : M S unit := fun s => (f s, Ok tt).
End Monad.

Notation "'let*' x := m 'in' k" := (bind m (fun x => k))
  (at level 200, x name, m at level 100, k at level 200).
Notation "m ;; k" := (bind m (fun _ => k)) (at level 100, right associativity).

(** ** [class TodoList]

    Python objects are references into a heap: [todos] holds references,
    [todo_files] is a dict keyed by object identity (TodoItem has no
    [__eq__]/[__hash__]), and the edit dialog mutates the object it was
    given in place.  The heap is total; addresses from [next_ref] on are
    unallocated.  [disk] is the content of [<directory>/todo/], in
    directory-listing order, and [fsys] the rest of the file system. *)

Abbreviation ref := nat.

(** A file as [open(path, 'r', encoding='utf-8')] and [f.read()] see it: its
    decoded text, a file that [open] refuses ([OSError]), or bytes that are
    not UTF-8 ([read] raises [UnicodeDecodeError]). *)
Inductive file := Text (content : str) | Unreadable | BadEncoding.

Abbreviation Disk := (list (str * file)).

Abbreviation path := (list str).

(** The file system around the listing, with absolute paths as lists of
    components: [todo_dir] is [<directory>/todo] (which [load_todos] makes
    with [os.makedirs], so it and its ancestors are directories), [dirs]
    holds the other directories and [outside] the files that are not
    directly inside [todo_dir], with their text.  Paths are physical (no
    symbolic link) and every directory is writable. *)
Record FileSystem := mkFileSystem {
  todo_dir : path;
  dirs : list path;
  outside : list (path * str)
}.

Record TodoList := mkTodoList {
  heap : ref -> TodoItem;
  next_ref : ref;
  todos : list ref;
  todo_files : gmap ref str;
  categories : gset str;
  disk : Disk;
  fsys : FileSystem
}.

Definition set_todos (l : list ref) (s : TodoList) : TodoList :=
  mkTodoList (heap s) (next_ref s) l (todo_files s) (categories s) (disk s) (fsys s).
Definition set_todo_files (f : gmap ref str) (s : TodoList) : TodoList :=
  mkTodoList (heap s) (next_ref s) (todos s) f (categories s) (disk s) (fsys s).
Definition set_categories (c : gset str) (s : TodoList) : TodoList :=
  mkTodoList (heap s) (next_ref s) (todos s) (todo_files s) c (disk s) (fsys s).
Definition set_disk (d : Disk) (s : TodoList) : TodoList :=
  mkTodoList (heap s) (next_ref s) (todos s) (todo_files s) (categories s) d (fsys s).
Definition set_fsys (t : FileSystem) (s : TodoList) : TodoList :=
  mkTodoList (heap s) (next_ref s) (todos s) (todo_files s) (categories s) (disk s) t.

(** Store [it] at reference [r] (attribute assignment on the object). *)
Definition heap_update (h : ref -> TodoItem) (r : ref) (it : TodoItem) : ref -> TodoItem :=
  fun r' => if Nat.eqb r' r then it else h r'.

(** Allocate a new object. *)
Definition alloc (it : TodoItem) : M TodoList ref :=
  fun s => (mkTodoList (heap_update (heap s) (next_ref s) it) (S (next_ref s))
              (todos s) (todo_files s) (categories s) (disk s) (fsys s), Ok (next_ref s)).

(** [glob.glob(os.path.join(todo_dir, "*.md"))]: names ending in [.md];
    [*] does not match a leading dot. *)
Fixpoint ends_with_md (s : str) : bool :=
  match s with
  | ["."%char; "m"%char; "d"%char] => true
  | _ :: s' => ends_with_md s'
  | [] => false
  end.

Definition glob_md (d : Disk) : Disk :=
  filter (fun f => ends_with_md f.1 = true /\ head f.1 <> Some "."%char) d.

(** The body of [if match:] in [load_todos], for one parsed item. *)
Definition load_item (file_name : str) (it : TodoItem) : M TodoList unit :=
  modify (fun s => set_categories ({[category it]} ∪ categories s) s) ;;
  let* r := alloc it in
  modify (fun s => set_todos (todos s ++ [r]) s) ;;
  modify (fun s => set_todo_files (<[r := file_name]> (todo_files s)) s).

Fixpoint load_items (file_name : str) (l : list TodoItem) : M TodoList unit :=
  match l with
  | [] => ret tt
  | it :: l' => load_item file_name it ;; load_items file_name l'
  end.

(** [for file_path in md_files: with open(...) as f: content = f.read() ...];
    nothing catches a failing [open] or [read]. *)
Fixpoint load_files (files : Disk) : M TodoList unit :=
  match files with
  | [] => ret tt
  | (file_name, contents) :: fs =>
      match contents with
      | Text content => load_items file_name (parse_content content) ;; load_files fs
      | Unreadable => raise (IOError file_name)
      | BadEncoding => raise UnicodeDecodeError
      end
  end.

(** [TodoList.load_todos] *)
Definition load_todos : M TodoList unit :=
  modify (set_todos []) ;;
  modify (set_todo_files ∅) ;;
  let* s := get in
  load_files (glob_md (disk s)).

(** [TodoList.__init__] on a file system [t] whose [todo/] holds [d]. *)
Definition new_TodoList_in (t : FileSystem) (d : Disk) : TodoList * res unit :=
  load_todos (mkTodoList (fun _ => mkItem [] false []) 0 [] ∅ {[uncategorized]} d t).

(** The directory [~/mdtodo] that [main] passes by default, for a user whose
    home is [/home/user], on a file system with no other directory. *)
Definition default_fs : FileSystem :=
  mkFileSystem [lit "home"; lit "user"; lit "mdtodo"; lit "todo"] [] [].

Definition new_TodoList (d : Disk) : TodoList * res unit := new_TodoList_in default_fs d.

(** [todos_by_file[file_name].append(todo)] on an insertion-ordered dict. *)
Fixpoint add_to_group (file_name : str) (r : ref) (groups : list (str * list ref))
  : list (str * list ref) :=
  match groups with
  | [] => [(file_name, [r])]
  | (f, rs) :: gs =>
      if str_eqb f file_name then (f, rs ++ [r]) :: gs
      else (f, rs) :: add_to_group file_name r gs
  end.

(** The first loop of [save_todos]: [todo_files.get(todo)], and when that
    is falsy the new origin [f"{todo.category}.md"] is recorded. *)
Fixpoint group_todos (l : list ref) (groups : list (str * list ref))
  : M TodoList (list (str * list ref)) :=
  match l with
  | [] => ret groups
  | r :: l' =>
      let* s := get in
      let known := match todo_files s !! r with Some f => f | None => [] end in
      match known with
      | [] =>
          let file_name := category (heap s r) ++ lit ".md" in
          modify (fun s => set_todo_files (<[r := file_name]> (todo_files s)) s) ;;
          group_todos l' (add_to_group file_name r groups)
      | _ :: _ => group_todos l' (add_to_group known r groups)
      end
  end.

(** [str.split('/')] *)
Fixpoint split_slash (s : str) : list str :=
  match s with
  | [] => [[]]
  | c :: s' =>
      if ascii_dec c "/"%char then [] :: split_slash s'
      else match split_slash s' with
           | w :: ws => (c :: w) :: ws
           | [] => [[c]]
           end
  end.

Definition path_string (p : path) : str := concat (map (fun c => "/"%char :: c) p).

(** [os.path.join(todo_dir, file_name)]: an absolute [file_name] replaces
    [todo_dir]. *)
Definition join_todo (t : FileSystem) (file_name : str) : str :=
  match file_name with
  | "/"%char :: _ => file_name
  | _ => path_string (todo_dir t) ++ "/"%char :: file_name
  end.

(** The length of the UTF-8 encoding of a Latin-1 string. *)
Fixpoint utf8_len (s : str) : nat :=
  match s with
  | [] => 0
  | c :: s' => (if nat_of_ascii c <? 128 then 1 else 2) + utf8_len s'
  end.

Fixpoint is_prefix (p q : path) : bool :=
  match p, q with
  | [], _ => true
  | c :: p', d :: q' => str_eqb c d && is_prefix p' q'
  | _ :: _, [] => false
  end.

Definition is_dir (t : FileSystem) (p : path) : bool :=
  is_prefix p (todo_dir t) || existsb (fun d => bool_decide (d = p)) (dirs t).

(** The kernel's walk over the components of an absolute path, from
    [cur]: an empty component and [.] stay, [..] goes to the parent (that
    of [/] is [/]), any other component must be a directory.  The last
    component is the file to create or truncate: it must not be empty, [.],
    [..] or a directory. *)
Fixpoint walk (t : FileSystem) (cur : path) (cs : list str) : option (path * str) :=
  match cs with
  | [] => None
  | [c] =>
      if str_eqb c [] || str_eqb c (lit ".") || str_eqb c (lit "..") || is_dir t (cur ++ [c])
      then None else Some (cur, c)
  | c :: cs' =>
      if str_eqb c [] || str_eqb c (lit ".") then walk t cur cs'
      else if str_eqb c (lit "..") then walk t (removelast cur) cs'
      else if is_dir t (cur ++ [c]) then walk t (cur ++ [c]) cs'
      else None
  end.

(** [open(os.path.join(todo_dir, file_name), 'w', encoding='utf-8')]: the
    directory and name of the file it creates or truncates.  Python refuses
    a path with a null byte ([ValueError]); Linux refuses ([OSError]) a
    component of more than [NAME_MAX] = 255 bytes, a path of [PATH_MAX] =
    4096 bytes or more, and a walk that fails. *)
Definition open_w (t : FileSystem) (file_name : str) : res (path * str) :=
  let p := join_todo t file_name in
  if existsb (fun c => Nat.eqb (nat_of_ascii c) 0) p then Raise ValueError
  else if (4096 <=? utf8_len p) || existsb (fun c => 255 <? utf8_len c) (split_slash p)
  then Raise (IOError file_name)
  else match walk t [] (split_slash p) with
       | Some loc => Ok loc
       | None => Raise (IOError file_name)
       end.

(** The writes to the file: it is created at the end of the listing or
    overwritten in place. *)
Fixpoint disk_write (file_name content : str) (d : Disk) : Disk :=
  match d with
  | [] => [(file_name, Text content)]
  | (f, x) :: d' =>
      if str_eqb f file_name then (f, Text content) :: d'
      else (f, x) :: disk_write file_name content d'
  end.

Fixpoint outside_write (p : path) (content : str) (l : list (path * str)) : list (path * str) :=
  match l with
  | [] => [(p, content)]
  | (q, x) :: l' =>
      if bool_decide (q = p) then (q, content) :: l'
      else (q, x) :: outside_write p content l'
  end.

Definition fs_write (loc : path * str) (content : str) (s : TodoList) : TodoList :=
  if bool_decide (loc.1 = todo_dir (fsys s))
  then set_disk (disk_write loc.2 content (disk s)) s
  else set_fsys (mkFileSystem (todo_dir (fsys s)) (dirs (fsys s))
                   (outside_write (loc.1 ++ [loc.2]) content (outside (fsys s)))) s.

(** The second loop of [save_todos]: for each group, [open] and the
    writes of [render_file]. *)
Fixpoint write_files (groups : list (str * list ref)) : M TodoList unit :=
  match groups with
  | [] => ret tt
  | (file_name, rs) :: gs =>
      let* s := get in
      match open_w (fsys s) file_name with
      | Raise e => raise e
      | Ok loc =>
          modify (fs_write loc (render_file file_name (map (heap s) rs))) ;;
          write_files gs
      end
  end.

(** [TodoList.save_todos] *)
Definition save_todos : M TodoList unit :=
  let* s := get in
  let* groups := group_todos (todos s) [] in
  write_files groups.

(** [TodoList.add_todo] *)
Definition add_todo (t c : str) : M TodoList ref :=
  let category := or_uncategorized c in
  modify (fun s => set_categories ({[category]} ∪ categories s) s) ;;
  let* r := alloc (new_TodoItem t false category) in
  modify (fun s => set_todos (todos s ++ [r]) s) ;;
  ret r.

(** [list.remove]: drops the first occurrence. *)
Fixpoint list_remove (r : ref) (l : list ref) : list ref :=
  match l with
  | [] => []
  | x :: l' => if Nat.eqb x r then l' else x :: list_remove r l'
  end.

(** [TodoList.delete_todo] *)
Definition delete_todo (r : ref) : M TodoList unit :=
  let* s := get in
  if decide (r ∈ todos s) then
    modify (set_todos (list_remove r (todos s))) ;;
    let* s := get in
    if decide (is_Some (todo_files s !! r))
    then modify (set_todo_files (delete r (todo_files s)))
    else ret tt
  else ret tt.

(** The two assignments [todo.text = ...; todo.category = ...] of the
    edit dialog's [on_save], on the object it was opened for. *)
Definition edit_todo (r : ref) (t c : str) : M TodoList unit :=
  modify (fun s =>
    mkTodoList (heap_update (heap s) r (mkItem t (done (heap s r)) c))
      (next_ref s) (todos s) (todo_files s) (categories s) (disk s) (fsys s)).

(** [TodoList.get_todos_by_category] *)
Definition get_todos_by_category (s : TodoList) (c : str) : list ref :=
  filter (fun r => category (heap s r) = c) (todos s).

(** Python's [str] ordering: lexicographic on code points. *)
Fixpoint str_leb (a b : str) : bool :=
  match a, b with
  | [], _ => true
  | _ :: _, [] => false
  | x :: a', y :: b' =>
      if nat_of_ascii x <? nat_of_ascii y then true
      else if ascii_dec x y then str_leb a' b' else false
  end.

Definition str_le (a b : str) : Prop := str_leb a b = true.
#[global] Instance str_le_dec : RelDecision str_le :=
  fun a b => decide (str_leb a b = true).

(** [TodoList.get_categories]: [sorted(list(self.categories))]. *)
Definition get_categories (s : TodoList) : list str :=
  merge_sort str_le (elements (categories s)).

(** ** [class TodoApp]

    The urwid widgets are not modelled, except for which dialog is on top
    ([loop.widget]) and the item a dialog's callbacks were created for.
    The footer's three-second alarm is not modelled. *)

Inductive action :=
| Quit | Save | Reload | Add | CategoryPrev | CategoryNext
| MoveUp | MoveDown | Toggle | Delete | Edit | Help.

(** The order of the [elif] chain of [handle_input]. *)
Definition action_order : list action :=
  [Quit; Save; Reload; Add; CategoryPrev; CategoryNext;
   MoveUp; MoveDown; Toggle; Delete; Edit; Help].

Inductive Widget :=
| Layout
| AddDialog (default_category : str)
| EditDialog (target : ref)
| DeleteDialog (target : ref).

Record TodoApp := mkApp {
  todo_list : TodoList;
  keymap : action -> str;
  current_category_idx : Z;
  selected_idx : Z;
  footer_text : str;
  widget : Widget
}.

Definition set_todo_list (t : TodoList) (a : TodoApp) : TodoApp :=
  mkApp t (keymap a) (current_category_idx a) (selected_idx a) (footer_text a) (widget a).
Definition set_category_idx (i : Z) (a : TodoApp) : TodoApp :=
  mkApp (todo_list a) (keymap a) i (selected_idx a) (footer_text a) (widget a).
Definition set_selected_idx (i : Z) (a : TodoApp) : TodoApp :=
  mkApp (todo_list a) (keymap a) (current_category_idx a) i (footer_text a) (widget a).
Definition set_footer (t : str) (a : TodoApp) : TodoApp :=
  mkApp (todo_list a) (keymap a) (current_category_idx a) (selected_idx a) t (widget a).
Definition set_widget (w : Widget) (a : TodoApp) : TodoApp :=
  mkApp (todo_list a) (keymap a) (current_category_idx a) (selected_idx a) (footer_text a) w.

(** Run a [TodoList] method on [self.todo_list]. *)
Definition on_list {A} (m : M TodoList A) : M TodoApp A :=
  fun a => let (t', r) := m (todo_list a) in (set_todo_list t' a, r).

Local Open Scope Z_scope.

(** Python list indexing [l[i]], negative indices counting from the end. *)
Definition py_index {A} (l : list A) (i : Z) : option A :=
  let n := Z.of_nat (length l) in
  if (0 <=? i) && (i <? n) then nth_error l (Z.to_nat i)
  else if (- n <=? i) && (i <? 0) then nth_error l (Z.to_nat (n + i))
  else None.

Definition index_or_raise {A} (l : list A) (i : Z) : M TodoApp A :=
  match py_index l i with Some x => ret x | None => raise IndexError end.

(** [list.index]: the first position of [x]. *)
Fixpoint list_index (x : str) (l : list str) : Z :=
  match l with
  | [] => 0
  | y :: l' => if str_eqb x y then 0 else 1 + list_index x l'
  end.

(** [str.strip()] *)
Fixpoint lstrip (s : str) : str :=
  match s with
  | c :: s' => if is_space c then lstrip s' else s
  | [] => []
  end.
Definition strip (s : str) : str := rev (lstrip (rev (lstrip s))).

(** [TodoApp.set_footer_text] *)
Definition set_footer_text (t : str) : M TodoApp unit :=
  modify (set_footer (lit " " ++ t ++ lit " ")).

(** [TodoApp.update_category_tabs] *)
Definition update_category_tabs : M TodoApp unit :=
  let* a := get in
  let categories := get_categories (todo_list a) in
  if Z.of_nat (length categories) <=? current_category_idx a
  then modify (set_category_idx 0) else ret tt.

(** [TodoApp.update_todo_list] *)
Definition update_todo_list : M TodoApp unit :=
  let* a := get in
  match get_categories (todo_list a) with
  | [] => ret tt
  | categories =>
      let* current_category := index_or_raise categories (current_category_idx a) in
      let todos := get_todos_by_category (todo_list a) current_category in
      if Z.of_nat (length todos) <=? selected_idx a
      then modify (set_selected_idx (Z.max 0 (Z.of_nat (length todos) - 1)))
      else ret tt
  end.

(** The lookup [categories[self.current_category_idx]] followed by
    [get_todos_by_category], shared by several branches of [handle_input]. *)
Definition current_todos : M TodoApp (list ref) :=
  let* a := get in
  let* current_category := index_or_raise (get_categories (todo_list a)) (current_category_idx a) in
  ret (get_todos_by_category (todo_list a) current_category).

(** [if todos and 0 <= self.selected_idx < len(todos)] *)
Definition valid_selection (todos : list ref) (sel : Z) : bool :=
  negb (bool_decide (todos = [])) && (0 <=? sel) && (sel <? Z.of_nat (length todos)).

(** The [category_prev] / [category_next] branches. *)
Definition move_category (delta : Z) : M TodoApp unit :=
  let* a := get in
  match get_categories (todo_list a) with
  | [] => ret tt
  | categories =>
      modify (set_category_idx
                (Z.modulo (current_category_idx a + delta) (Z.of_nat (length categories)))) ;;
      modify (set_selected_idx 0) ;;
      update_category_tabs ;;
      update_todo_list
  end.

(** [TodoApp.handle_input], one branch per action. *)
Definition handle_action (act : action) : M TodoApp unit :=
  match act with
  | Quit => raise ExitMainLoop
  | Save =>
      on_list save_todos ;;
      set_footer_text (lit "Todos saved successfully!")
  | Reload =>
      on_list load_todos ;;
      update_category_tabs ;;
      update_todo_list ;;
      set_footer_text (lit "Reloaded todos from files")
  | Add =>
      (* show_add_dialog *)
      let* a := get in
      let* current_category :=
        index_or_raise (get_categories (todo_list a)) (current_category_idx a) in
      modify (set_widget (AddDialog current_category))
  | CategoryPrev => move_category (-1)
  | CategoryNext => move_category 1
  | MoveUp =>
      let* a := get in
      if 0 <? selected_idx a then
        modify (set_selected_idx (selected_idx a - 1)) ;; update_todo_list
      else ret tt
  | MoveDown =>
      let* a := get in
      match get_categories (todo_list a) with
      | [] => ret tt
      | _ =>
          let* todos := current_todos in
          if selected_idx a <? Z.of_nat (length todos) - 1 then
            modify (set_selected_idx (selected_idx a + 1)) ;; update_todo_list
          else ret tt
      end
  | Toggle =>
      let* a := get in
      match get_categories (todo_list a) with
      | [] => ret tt
      | _ =>
          let* shown := current_todos in
          if valid_selection shown (selected_idx a) then
            let* r := index_or_raise shown (selected_idx a) in
            on_list (modify (fun s =>
              mkTodoList (heap_update (heap s) r (toggle (heap s r)))
                (next_ref s) (todos s) (todo_files s) (categories s) (disk s) (fsys s))) ;;
            update_todo_list ;;
            let* a := get in
            set_footer_text (lit "Toggled: " ++ text (heap (todo_list a) r))
          else ret tt
      end
  | Delete =>
      let* a := get in
      match get_categories (todo_list a) with
      | [] => ret tt
      | _ =>
          let* todos := current_todos in
          if valid_selection todos (selected_idx a) then
            let* r := index_or_raise todos (selected_idx a) in
            modify (set_widget (DeleteDialog r))
          else ret tt
      end
  | Edit =>
      let* a := get in
      match get_categories (todo_list a) with
      | [] => ret tt
      | _ =>
          let* todos := current_todos in
          if valid_selection todos (selected_idx a) then
            let* r := index_or_raise todos (selected_idx a) in
            modify (set_widget (EditDialog r))
          else ret tt
      end
  | Help =>
      (* show_help_dialog: [urwid.connect_signal(help_dialog, 'key_press',
         close_help)] raises [NameError], an [urwid.Filler] having no
         signal ['key_press'], before [show_dialog] is reached *)
      raise NameError
  end.

(** The first action of the [elif] chain whose key is [key]. *)
Definition action_of (km : action -> str) (key : str) : option action :=
  find (fun act => str_eqb key (km act)) action_order.

(** [TodoApp.handle_input], for a key that reached [unhandled_input]. *)
Definition handle_input (key : str) : M TodoApp unit :=
  let* a := get in
  match action_of (keymap a) key with
  | Some act => handle_action act
  | None => ret tt
  end.

(** [on_save] of [show_add_dialog], with the two edit fields' texts. *)
Definition add_on_save (text_input category_input : str) : M TodoApp unit :=
  let t := strip text_input in
  let category := or_uncategorized (strip category_input) in
  (match t with
   | [] => ret tt
   | _ =>
       let* _ := on_list (add_todo t category) in
       let* a := get in
       let categories := get_categories (todo_list a) in
       (if bool_decide (category ∈ categories)
        then modify (set_category_idx (list_index category categories)) else ret tt) ;;
       update_category_tabs ;;
       update_todo_list ;;
       set_footer_text (lit "Added: " ++ t)
   end) ;;
  modify (set_widget Layout).

(** [on_save] of [show_edit_dialog] for the item [r] it was opened on. *)
Definition edit_on_save (r : ref) (text_input category_input : str) : M TodoApp unit :=
  on_list (edit_todo r (strip text_input) (or_uncategorized (strip category_input))) ;;
  let* a := get in
  let categories := get_categories (todo_list a) in
  let c := category (heap (todo_list a) r) in
  (if bool_decide (c ∈ categories)
   then modify (set_category_idx (list_index c categories)) else ret tt) ;;
  update_category_tabs ;;
  update_todo_list ;;
  let* a := get in
  set_footer_text (lit "Updated: " ++ text (heap (todo_list a) r)) ;;
  modify (set_widget Layout).

(** [on_yes] of [show_delete_dialog] for the item [r]. *)
Definition delete_on_yes (r : ref) : M TodoApp unit :=
  on_list (delete_todo r) ;;
  update_todo_list ;;
  set_footer_text (lit "Deleted todo") ;;
  modify (set_widget Layout).

(** The events the main loop delivers: a key that no widget handled, or a
    button of the dialog on top ([Cancel] is [on_cancel] / [on_no]). *)
Inductive event :=
| Key (k : str)
| AddSave (text_input category_input : str)
| EditSave (text_input category_input : str)
| DeleteYes
| Cancel.

Definition step (ev : event) : M TodoApp unit :=
  let* a := get in
  match ev, widget a with
  | Key k, _ => handle_input k
  | AddSave t c, AddDialog _ => add_on_save t c
  | EditSave t c, EditDialog r => edit_on_save r t c
  | DeleteYes, DeleteDialog r => delete_on_yes r
  | Cancel, AddDialog _ | Cancel, EditDialog _ | Cancel, DeleteDialog _ =>
      modify (set_widget Layout)
  | _, _ => ret tt
  end.

(** [DEFAULT_KEYMAP] *)
Definition DEFAULT_KEYMAP (act : action) : str :=
  match act with
  | Quit => lit "q" | Add => lit "a" | Edit => lit "e" | Delete => lit "d"
  | Toggle => lit "space" | Save => lit "w" | MoveUp => lit "k"
  | MoveDown => lit "j" | CategoryPrev => lit "h" | CategoryNext => lit "l"
  | Help => lit "?" | Reload => lit "r"
  end.

(** [TodoApp.__init__] with its [init_ui] updates. *)
Definition new_TodoApp (d : Disk) (km : action -> str) : TodoApp * res unit :=
  let (tl, r) := new_TodoList d in
  let a := mkApp tl km 0 0 (lit " Press ? for help ") Layout in
  match r with
  | Raise e => (a, Raise e)
  | Ok _ => (update_category_tabs ;; update_todo_list) a
  end.

Local Close Scope Z_scope.

(** ** The line grammar of the specification *)

Definition todo_prefix (m : ascii) (r : str) : str := lit "- [" ++ m :: lit "] " ++ r.

(** [- [<mark>] <text>(#<category>)?] with mark in {space, x, X} and a
    non-empty rest. *)
Definition grammar_match (line : str) : Prop :=
  exists m r, line = todo_prefix m r /\ is_mark m = true /\ r <> [].

(** [r] is a non-empty text followed by a whitespace-separated trailing
    [#w] token, [w] a single word, and trailing whitespace. *)
Definition trailing_tag (r w : str) : Prop :=
  exists t s1 s2, t <> [] /\ r = t ++ s1 ++ "#"%char :: w ++ s2 /\ s1 <> []
    /\ Forall (fun c => is_space c = true) s1 /\ w <> []
    /\ Forall (fun c => is_word c = true) w /\ Forall (fun c => is_space c = true) s2.

(** ** Round trip *)

Definition no_breaks (s : str) : Prop := Forall (fun c => is_linebreak c = false) s.

(** The lines of a text whose every line ends in a newline. *)
Definition unlines (l : list str) : str := concat (map (fun x => x ++ nl) l).

(** An item whose checkbox line parses back to itself: a non-empty text
    with no line break that does not end in whitespace, and a category that
    is either "uncategorized" (and then the text does not end in a
    whitespace-separated [#word]) or a non-empty word. *)
Definition round_trips (it : TodoItem) : Prop :=
  no_breaks (text it)
  /\ (exists pre c, text it = pre ++ [c] /\ is_space c = false)
  /\ ((category it = uncategorized /\ ~ exists w, trailing_tag (text it) w)
      \/ (category it <> [] /\ category it <> uncategorized
          /\ Forall (fun c => is_word c = true) (category it))).

(** ** Store invariants *)

(** The operation never removes a category. *)
Definition cats_grow {A} (m : M TodoList A) : Prop :=
  forall s, categories s ⊆ categories (fst (m s)).

(** Every key of [todo_files] is an item of [todos]. *)
Definition origin_ok (s : TodoList) : Prop :=
  forall r, is_Some (todo_files s !! r) -> r ∈ todos s.

Definition preserves {A} (I : TodoList -> Prop) (m : M TodoList A) : Prop :=
  forall s, I s -> I (fst (m s)).

Definition is_text (x : file) : bool := match x with Text _ => true | _ => false end.

(** The items of the files in reading order, when every file is readable. *)
Fixpoint parsed_files (fs : Disk) : option (list TodoItem) :=
  match fs with
  | [] => Some []
  | (_, Text content) :: fs' => option_map (app (parse_content content)) (parsed_files fs')
  | (_, _) :: _ => None
  end.

(** Every item reference was allocated before [next_ref]. *)
Definition refs_fresh (s : TodoList) : Prop :=
  Forall (fun r => r < next_ref s) (todos s).

Definition header_line (file_name : str) : str :=
  lit "# " ++ capitalize (strip_md file_name) ++ lit " Tasks".

(** ** Concrete runs *)

(** [add_todo("buy milk", "home")] then [save_todos()] on a fresh store over
    an empty [todo/] directory: the files written. *)
Definition scenario_C_disk : Disk :=
  let (tl, _) := new_TodoList [] in
  let (tl1, _) := add_todo (lit "buy milk") (lit "home") tl in
  disk (fst (save_todos tl1)).

(** The lines [save_todos] writes to [home.md] in that run. *)
Definition scenario_C_lines : list str :=
  [lit "# Home Tasks"; []; lit "## Active"; []; lit "- [ ] buy milk #home"; []].

(** [add_todo("x", "home")] then [load_todos()], over an empty directory. *)
Definition reload_after_add : TodoList :=
  fst (load_todos (fst (add_todo (lit "x") (lit "home") (fst (new_TodoList []))))).

(** A directory whose first file is not valid UTF-8. *)
Definition bad_first_disk : Disk :=
  [(lit "a.md", BadEncoding); (lit "b.md", Text (lit "- [ ] t"))].

(** ** Application invariants *)

Local Open Scope Z_scope.

(** The number of items the active tab would show for category [cur]. *)
Definition count_shown (a : TodoApp) (cur : str) : Z :=
  Z.of_nat (length (get_todos_by_category (todo_list a) cur)).

(** The indices of the UI are in range: the category index points into the
    sorted category list and the selection into the active tab, or is 0 when
    that tab is empty. *)
Definition app_inv (a : TodoApp) : Prop :=
  uncategorized ∈ categories (todo_list a)
  /\ 0 <= current_category_idx a < Z.of_nat (length (get_categories (todo_list a)))
  /\ 0 <= selected_idx a
  /\ forall cur, py_index (get_categories (todo_list a)) (current_category_idx a) = Some cur ->
       selected_idx a < count_shown a cur \/ selected_idx a = 0.

(** Partial correctness of a UI computation: from a state satisfying [P],
    a normal return ends in a state satisfying [Q]. *)
Definition triple {A} (P Q : TodoApp -> Prop) (m : M TodoApp A) : Prop :=
  forall a, P a -> match m a with (a', Ok _) => Q a' | (_, Raise _) => True end.

(** Enough for [update_category_tabs] to bring the category index in range. *)
Definition P0 (a : TodoApp) : Prop :=
  uncategorized ∈ categories (todo_list a)
  /\ 0 <= current_category_idx a /\ 0 <= selected_idx a.

(** Enough for [update_todo_list] to succeed and clamp the selection. *)
Definition P1 (a : TodoApp) : Prop :=
  uncategorized ∈ categories (todo_list a)
  /\ 0 <= current_category_idx a < Z.of_nat (length (get_categories (todo_list a)))
  /\ 0 <= selected_idx a.

Local Close Scope Z_scope.

(** A computation that leaves the application state as it is. *)
Definition pure {A} (m : M TodoApp A) : Prop := forall a, fst (m a) = a.

(** The store after [todo.toggle()] on [r]. *)
Definition toggled (s : TodoList) (r : ref) : TodoList :=
  mkTodoList (heap_update (heap s) r (toggle (heap s r)))
    (next_ref s) (todos s) (todo_files s) (categories s) (disk s) (fsys s).

(** The application started on a directory with one file and one todo. *)
Definition sample_app : TodoApp :=
  fst (new_TodoApp [(lit "a.md", Text (lit "- [ ] t"))] DEFAULT_KEYMAP).

(** Four todos tagged [#a] and two tagged [#b]. *)
Definition two_categories_disk : Disk :=
  [(lit "a.md", Text (unlines [lit "- [ ] 1 #a"; lit "- [ ] 2 #a"; lit "- [ ] 3 #a"; lit "- [ ] 4 #a"]));
   (lit "b.md", Text (unlines [lit "- [ ] 5 #b"; lit "- [ ] 6 #b"]))].

Definition start_app : TodoApp := fst (new_TodoApp two_categories_disk DEFAULT_KEYMAP).

(** Three presses of [j] (move_down): the fourth item of tab [a] is selected. *)
Definition fourth_selected : TodoApp :=
  fst (step (Key (lit "j")) (fst (step (Key (lit "j")) (fst (step (Key (lit "j")) start_app))))).

(** Then [l] (category_next): tab [b], which has two items. *)
Definition after_switch : TodoApp * res unit := step (Key (lit "l")) fourth_selected.

(** [todo_files.get(todo)] when truthy, else [f"{todo.category}.md"]: the
    file [save_todos] puts the item in. *)
Definition target_file (s : TodoList) (r : ref) : str :=
  match todo_files s !! r with
  | Some (c :: f) => c :: f
  | _ => category (heap s r) ++ lit ".md"
  end.

(** [todos_by_file.get(f, [])] on the insertion-ordered groups. *)
Fixpoint assoc_refs (f : str) (gs : list (str * list ref)) : list ref :=
  match gs with
  | [] => []
  | (g, rs) :: gs' => if str_eqb g f then rs else assoc_refs f gs'
  end.

(** The file [f] of the directory listing, [None] when absent. *)
Fixpoint disk_lookup (f : str) (d : Disk) : option file :=
  match d with
  | [] => None
  | (g, x) :: d' => if str_eqb g f then Some x else disk_lookup f d'
  end.

Fixpoint outside_lookup (p : path) (l : list (path * str)) : option str :=
  match l with
  | [] => None
  | (q, x) :: l' => if bool_decide (q = p) then Some x else outside_lookup p l'
  end.

(** The file named [loc.2] in the directory [loc.1], [None] when absent. *)
Definition file_at (s : TodoList) (loc : path * str) : option file :=
  if bool_decide (loc.1 = todo_dir (fsys s)) then disk_lookup loc.2 (disk s)
  else option_map Text (outside_lookup (loc.1 ++ [loc.2]) (outside (fsys s))).

(** The names whose header [capitalize] renders as Python does: the first
    character of [file_name.replace('.md', '')] is not [µ] or [ÿ]. *)
Definition header_in_model (file_name : str) : bool :=
  match strip_md file_name with
  | c :: _ => negb (Nat.eqb (nat_of_ascii c) 181 || Nat.eqb (nat_of_ascii c) 255)
  | [] => true
  end.

(** The origin recorded for each item loaded from [files], in order. *)
Fixpoint file_origins (files : Disk) : list (option str) :=
  match files with
  | [] => []
  | (f, Text c) :: fs => replicate (length (parse_content c)) (Some f) ++ file_origins fs
  | (_, _) :: _ => []
  end.

Definition one_added : TodoList :=
  fst (add_todo (lit "buy milk") (lit "home") (fst (new_TodoList []))).

(** [add_todo("buy milk", "../x")] on a fresh store: its file is
    [~/mdtodo/x.md], beside [todo/]. *)
Definition added_outside : TodoList :=
  fst (add_todo (lit "buy milk") (lit "../x") (fst (new_TodoList []))).

(** [a.md] holds [t]; then [add_todo("u", "./a")], whose file [./a.md] is
    [a.md] again. *)
Definition alias_store : TodoList :=
  fst (add_todo (lit "u") (lit "./a") (fst (new_TodoList [(lit "a.md", Text (lit "- [ ] t"))]))).

Definition deleted_from_file : TodoList :=
  fst (delete_todo 0 (fst (new_TodoList [(lit "a.md", Text (lit "- [ ] t"))]))).

(** Every item's category is one of the store's categories. *)
Definition cats_cover (s : TodoList) : Prop :=
  forall r, r ∈ todos s -> category (heap s r) ∈ categories s.

(** A UI computation that leaves [self.todo_list] as it is. *)
Definition keeps_list {A} (m : M TodoApp A) : Prop :=
  forall a, todo_list (fst (m a)) = todo_list a.

(** The [delete] and [edit] branches of [handle_input], with the dialog they open. *)
Definition open_on_selected (W : ref -> Widget) : M TodoApp unit :=
  let* a := get in
  match get_categories (todo_list a) with
  | [] => ret tt
  | _ =>
      let* todos := current_todos in
      if valid_selection todos (selected_idx a) then
        let* r := index_or_raise todos (selected_idx a) in
        modify (set_widget (W r))
      else ret tt
  end.

Definition delete_asked : TodoApp := fst (step (Key (lit "d")) sample_app).

(** [for i, x in enumerate(l)] building [f (i == sel) x], with [i] from [i0]. *)
Fixpoint enumerate_mark {A B} (f : bool -> A -> B) (i sel : Z) (l : list A) : list B :=
  match l with
  | [] => []
  | x :: l' => f (Z.eqb i sel) x :: enumerate_mark f (i + 1) sel l'
  end.

(** The markup [update_category_tabs] passes to [self.category_tabs.set_text]. *)
Definition tab_of (selected : bool) (c : str) : str * str :=
  if selected then (lit "selected_category", lit " " ++ c ++ lit " ")
  else (lit "category", lit " " ++ c ++ lit " ").

Definition category_tabs (a : TodoApp) : list (str * str) :=
  enumerate_mark tab_of 0 (current_category_idx a) (get_categories (todo_list a)).

(** The entries [update_todo_list] puts in [self.todo_walker]: an
    [AttrMap(Text([('', " <checkbox> "), (style, text)]), attr)] per item,
    the checkbox given by its code point, or a [Text] message. *)
Inductive todo_widget :=
| Message (t : str)
| Entry (attr : str) (checkbox : Z) (style : str) (t : str).

Definition item_style (it : TodoItem) : str := if done it then lit "done" else lit "todo".

(** U+2612 BALLOT BOX WITH X and U+2610 BALLOT BOX. *)
Definition checkbox (it : TodoItem) : Z := if done it then 9746 else 9744.

Definition entry_of (selected : bool) (it : TodoItem) : todo_widget :=
  Entry (if selected then lit "selected" else item_style it) (checkbox it) (item_style it) (text it).

Definition todo_widgets (s : TodoList) (km : action -> str) (cur : str) (sel : Z) : list todo_widget :=
  match enumerate_mark entry_of 0 sel (map (heap s) (get_todos_by_category s cur)) with
  | [] => [Message (lit "No todos in category '" ++ cur ++ lit "'. Press '" ++ km Add
                    ++ lit "' to add one.")]
  | ws => ws
  end.

Definition is_selected (w : todo_widget) : bool :=
  match w with Entry attr _ _ _ => str_eqb attr (lit "selected") | Message _ => false end.

(** * Properties *)

(** ** Character facts *)

Lemma space_not_word (c : ascii) : is_space c = true -> is_word c = false.
Proof. destruct c as [[] [] [] [] [] [] [] []]; vm_compute; congruence. Qed.

Lemma hash_not_space : is_space "#"%char = false.
Proof. reflexivity. Qed.

Lemma hash_not_word : is_word "#"%char = false.
Proof. reflexivity. Qed.

Lemma newline_linebreak : is_linebreak newline = true.
Proof. reflexivity. Qed.

Lemma is_mark_cases (m : ascii) :
  is_mark m = true -> m = " "%char \/ m = "x"%char \/ m = "X"%char.
Proof. destruct m as [[] [] [] [] [] [] [] []]; vm_compute; try congruence; auto. Qed.

(** ** [span] *)

Lemma span_spec (p : ascii -> bool) (s a b : str) :
  span p s = (a, b) ->
  s = a ++ b /\ Forall (fun c => p c = true) a
  /\ match b with c :: _ => p c = false | [] => True end.
Proof.
  revert a b. induction s as [|c s IH]; intros a b H; simpl in H.
  - injection H as <- <-. auto.
  - destruct (p c) eqn:Hc.
    + destruct (span p s) as [a' b'] eqn:Hs. injection H as <- <-.
      destruct (IH _ _ eq_refl) as (-> & Ha & Hb). auto.
    + injection H as <- <-. simpl. auto.
Qed.

Lemma span_app (p : ascii -> bool) (a b : str) :
  Forall (fun c => p c = true) a ->
  match b with c :: _ => p c = false | [] => True end ->
  span p (a ++ b) = (a, b).
Proof.
  intros Ha Hb. induction Ha as [|c a Hc Ha IH]; simpl.
  - destruct b as [|c b]; [reflexivity|]. simpl in *. now rewrite Hb.
  - rewrite Hc, IH. reflexivity.
Qed.

Lemma forallb_Forall_eq (p : ascii -> bool) (s : str) :
  forallb p s = true <-> Forall (fun c => p c = true) s.
Proof. rewrite forallb_forall, List.Forall_forall. reflexivity. Qed.

(** ** The optional tag group *)

Lemma match_tag_spec (s w : str) :
  match_tag s = Some w <->
  exists s1 s2, s = s1 ++ "#"%char :: w ++ s2 /\ s1 <> []
    /\ Forall (fun c => is_space c = true) s1 /\ w <> []
    /\ Forall (fun c => is_word c = true) w /\ Forall (fun c => is_space c = true) s2.
Proof.
  split.
  - unfold match_tag. destruct (span is_space s) as [s1 b] eqn:Hs.
    destruct (span_spec _ _ _ _ Hs) as (-> & Hs1 & _).
    destruct s1 as [|c1 s1']; [discriminate|].
    destruct b as [|h rest]; [discriminate|].
    destruct (ascii_dec h "#"%char) as [->|Hh].
    2:{ destruct h as [[] [] [] [] [] [] [] []]; try discriminate; congruence. }
    destruct (span is_word rest) as [w' rest'] eqn:Hw.
    destruct (span_spec _ _ _ _ Hw) as (-> & Hw' & _).
    destruct w' as [|cw w'']; [discriminate|].
    destruct (forallb is_space rest') eqn:Hr; [|discriminate].
    intros H; injection H as <-.
    exists (c1 :: s1'), rest'. rewrite forallb_Forall_eq in Hr.
    repeat split; auto; discriminate.
  - intros (s1 & s2 & -> & Hne & Hs1 & Hwne & Hw & Hs2). unfold match_tag.
    rewrite (span_app is_space s1 ("#"%char :: w ++ s2) Hs1 hash_not_space).
    destruct s1 as [|c1 s1']; [congruence|].
    rewrite (span_app is_word w s2 Hw).
    2:{ destruct s2 as [|c s2]; [exact I|]. inversion Hs2; subst. now apply space_not_word. }
    destruct w as [|cw w']; [congruence|].
    apply forallb_Forall_eq in Hs2. now rewrite Hs2.
Qed.

(** Two suffixes of one line that both match the tag group capture the same
    word: the [#] is the only one in either suffix. *)
Lemma hash_split_right (l1 l2 m1 m2 : str) :
  l1 ++ "#"%char :: m1 = l2 ++ "#"%char :: m2 ->
  ~ In "#"%char m1 -> ~ In "#"%char m2 -> m1 = m2.
Proof.
  intros H H1 H2.
  assert (Hr : rev m1 ++ "#"%char :: rev l1 = rev m2 ++ "#"%char :: rev l2).
  { apply (f_equal (@rev ascii)) in H. rewrite !rev_app_distr in H. simpl in H.
    rewrite <- !app_assoc in H. exact H. }
  rewrite <- (rev_involutive m1), <- (rev_involutive m2). f_equal.
  assert (H1' : ~ In "#"%char (rev m1)) by (now rewrite <- in_rev).
  assert (H2' : ~ In "#"%char (rev m2)) by (now rewrite <- in_rev).
  clear H H1 H2. revert H1' H2' Hr. generalize (rev m1) (rev m2).
  intros a; induction a as [|x a IH]; intros [|y b] Ha Hb Heq; simpl in *.
  - reflexivity.
  - injection Heq as <- _. tauto.
  - injection Heq as -> _. tauto.
  - injection Heq as -> Heq. f_equal. apply IH; tauto.
Qed.

Lemma no_hash_word_space (w s : str) :
  Forall (fun c => is_word c = true) w -> Forall (fun c => is_space c = true) s ->
  ~ In "#"%char (w ++ s).
Proof.
  intros Hw Hs Hin. apply in_app_or in Hin as [Hin|Hin].
  - rewrite List.Forall_forall in Hw. apply Hw in Hin. discriminate.
  - rewrite List.Forall_forall in Hs. apply Hs in Hin. discriminate.
Qed.

Lemma match_tag_suffix_unique (x s w1 w2 : str) :
  match_tag (x ++ s) = Some w1 -> match_tag s = Some w2 -> w1 = w2.
Proof.
  rewrite !match_tag_spec.
  intros (a1 & b1 & H1 & _ & _ & _ & Hw1 & Hb1) (a2 & b2 & -> & _ & _ & _ & Hw2 & Hb2).
  rewrite app_assoc in H1.
  assert (Hm : w1 ++ b1 = w2 ++ b2).
  { symmetry. eapply hash_split_right; [exact H1| |]; eauto using no_hash_word_space. }
  assert (Hs1 := span_app is_word w1 b1 Hw1).
  assert (Hs2 := span_app is_word w2 b2 Hw2).
  assert (Hend : forall b, Forall (fun c => is_space c = true) b ->
                 match b with c :: _ => is_word c = false | [] => True end).
  { intros [|c b] Hb; [exact I|]. inversion Hb; subst. now apply space_not_word. }
  specialize (Hs1 (Hend _ Hb1)). specialize (Hs2 (Hend _ Hb2)).
  rewrite Hm, Hs2 in Hs1. congruence.
Qed.

(** ** The lazy loop *)

Lemma scan_tag (acc r t w : str) :
  scan acc r = Some (t, Some w) ->
  exists r1 r2, r = r1 ++ r2 /\ t = rev acc ++ r1 /\ match_tag r2 = Some w.
Proof.
  revert acc. induction r as [|c r IH]; intros acc H.
  - discriminate H.
  - simpl in H. destruct (match_tag (c :: r)) as [w'|] eqn:Ht.
    + injection H as <- <-. exists [], (c :: r). rewrite app_nil_r. auto.
    + destruct (is_space c && forallb is_space r); [discriminate|].
      destruct (ascii_dec c newline); [discriminate|].
      destruct (IH _ H) as (r1 & r2 & -> & -> & Hm).
      exists (c :: r1), r2. simpl. rewrite <- app_assoc. auto.
Qed.

Lemma scan_notag (acc r t : str) :
  scan acc r = Some (t, None) ->
  exists r1 r2, r = r1 ++ r2 /\ t = rev acc ++ r1
    /\ Forall (fun c => is_space c = true) r2
    /\ (forall x y, r = x ++ y -> length x <= length r1 -> match_tag y = None).
Proof.
  revert acc. induction r as [|c r IH]; intros acc H.
  - simpl in H. injection H as <-. exists [], []. 
    split; [reflexivity|]. split; [now rewrite app_nil_r|]. split; [constructor|].
    intros [|] y Hxy Hl; simpl in *; [subst; reflexivity|lia].
  - simpl in H. destruct (match_tag (c :: r)) as [w'|] eqn:Ht; [discriminate|].
    destruct (is_space c && forallb is_space r) eqn:Hsp.
    + injection H as <-. exists [], (c :: r).
      split; [reflexivity|]. split; [now rewrite app_nil_r|].
      split; [apply forallb_Forall_eq; exact Hsp|].
      intros [|] y Hxy Hl; simpl in *; [subst; exact Ht|lia].
    + destruct (ascii_dec c newline); [discriminate|].
      destruct (IH _ H) as (r1 & r2 & -> & -> & Hs & Hmin).
      exists (c :: r1), r2. simpl. rewrite <- app_assoc.
      split; [reflexivity|]. split; [reflexivity|]. split; [exact Hs|].
      intros [|c' x] y Hxy Hl; simpl in *.
      * subst y. exact Ht.
      * injection Hxy as -> Hxy. apply (Hmin x y Hxy). lia.
Qed.

Lemma scan_total (acc r : str) :
  ~ In newline r -> scan acc r <> None.
Proof.
  revert acc. induction r as [|c r IH]; intros acc Hn.
  - discriminate.
  - simpl. destruct (match_tag (c :: r)); [discriminate|].
    destruct (is_space c && forallb is_space r); [discriminate|].
    destruct (ascii_dec c newline) as [->|]; [simpl in Hn; tauto|].
    apply IH. simpl in Hn. tauto.
Qed.

(** ** Lines of [splitlines] *)

Lemma splitlines_acc_no_break (s cur l : str) :
  In l (splitlines_acc cur s) ->
  (forall c, In c cur -> is_linebreak c = false) ->
  forall c, In c l -> is_linebreak c = false.
Proof.
  remember (length s) as n eqn:Hn. revert s cur Hn.
  induction n as [n IH] using lt_wf_ind. intros s cur Hn Hin Hcur.
  assert (Hrev : forall c', In c' (rev cur) -> is_linebreak c' = false)
    by (intros c' Hc'; apply Hcur; now apply in_rev).
  destruct s as [|c s]; simpl in Hin.
  - destruct cur; simpl in Hin; [tauto|]. destruct Hin as [<-|[]]. exact Hrev.
  - simpl in Hn.
    assert (Hnil : forall c', In c' (@nil ascii) -> is_linebreak c' = false)
      by (intros ? []).
    destruct (is_linebreak c) eqn:Hc.
    + destruct (ascii_dec c cr).
      * destruct s as [|c' s'].
        -- simpl in Hin. destruct Hin as [<-|[]]. exact Hrev.
        -- destruct (ascii_dec c' newline).
           ++ destruct Hin as [<-|Hin]; [exact Hrev|].
              eapply (IH (length s')); [simpl in Hn; lia|reflexivity|exact Hin|exact Hnil].
           ++ destruct Hin as [<-|Hin]; [exact Hrev|].
              eapply (IH (length (c' :: s'))); [lia|reflexivity|exact Hin|exact Hnil].
      * destruct Hin as [<-|Hin]; [exact Hrev|].
        eapply (IH (length s)); [lia|reflexivity|exact Hin|exact Hnil].
    + eapply (IH (length s)); [lia|reflexivity|exact Hin|].
      intros c' [<-|Hc']; auto.
Qed.

(** ** Lines *)

Lemma todo_match_prefix (line : str) (m : ascii) (t : str) (cat : option str) :
  todo_match line = Some (m, t, cat) ->
  exists r, line = todo_prefix m r /\ is_mark m = true /\ text_and_tag r = Some (t, cat).
Proof.
  intros H.
  destruct line as [|c1 [|c2 [|c3 [|c4 [|c5 [|c6 r]]]]]]; try discriminate H.
  all: destruct c1 as [[] [] [] [] [] [] [] []]; try discriminate H.
  all: try (destruct c2 as [[] [] [] [] [] [] [] []]; try discriminate H).
  all: try (destruct c3 as [[] [] [] [] [] [] [] []]; try discriminate H).
  all: try (destruct c5 as [[] [] [] [] [] [] [] []]; try discriminate H).
  all: try (destruct c6 as [[] [] [] [] [] [] [] []]; try discriminate H).
  all: simpl in H; try discriminate H.
  all: try (destruct (is_mark c4); discriminate H).
  simpl in H. destruct (is_mark c4) eqn:Hm; [|discriminate].
  destruct (text_and_tag r) as [[t' cat']|] eqn:Ht; [|discriminate].
  injection H as <- <- <-. exists r. auto.
Qed.

Lemma todo_match_todo_prefix (m : ascii) (r : str) :
  todo_match (todo_prefix m r) =
  if is_mark m then
    match text_and_tag r with Some (t, cat) => Some (m, t, cat) | None => None end
  else None.
Proof. reflexivity. Qed.

Lemma splitlines_no_newline (content line : str) :
  In line (splitlines content) -> ~ In newline line.
Proof.
  intros Hin Hn.
  assert (H := splitlines_acc_no_break content [] line Hin (fun c (H : In c []) => match H with end)).
  pose proof newline_linebreak as Hl. rewrite (H newline Hn) in Hl. discriminate.
Qed.

Lemma mark_lower (m : ascii) :
  is_mark m = true ->
  ((if ascii_dec (ascii_lower m) "x"%char then true else false) = true
   <-> m = "x"%char \/ m = "X"%char).
Proof.
  intros Hm. destruct (is_mark_cases m Hm) as [ -> | [ -> | -> ]]; vm_compute;
    split; intros H; try discriminate; auto; destruct H; discriminate.
Qed.

Lemma in_todo_prefix (x m : ascii) (r : str) : In x r -> In x (todo_prefix m r).
Proof. intros H. simpl. do 6 right. exact H. Qed.

Lemma tag_form_match (s1 w s2 : str) :
  s1 <> [] -> Forall (fun c => is_space c = true) s1 -> w <> [] ->
  Forall (fun c => is_word c = true) w -> Forall (fun c => is_space c = true) s2 ->
  match_tag (s1 ++ "#"%char :: w ++ s2) = Some w.
Proof. intros. apply match_tag_spec. exists s1, s2. auto 7. Qed.

(** C1: [parse_line] on the lines of a file's text (the lines of
    [str.splitlines()]) recognises exactly the lines [- [<mark>] <text>...]
    with mark in {space, x, X} and a non-empty rest; [done] holds iff the
    mark is [x] or [X]; the category is the word of a trailing
    whitespace-separated [#word] token when there is one and
    "uncategorized" otherwise; a line that does not match contributes no
    item and raises nothing. *)
Theorem parse_line_grammar (content line : str) :
  In line (splitlines content) ->
  (is_Some (parse_line line) <-> grammar_match line)
  /\ (forall m r it, line = todo_prefix m r -> parse_line line = Some it ->
        (done it = true <-> m = "x"%char \/ m = "X"%char)
        /\ (forall w, trailing_tag r w -> category it = w)
        /\ ((~ exists w, trailing_tag r w) -> category it = uncategorized))
  /\ (parse_line line = None -> forall ls, parse_lines (line :: ls) = parse_lines ls).
Proof.
  intros Hin. pose proof (splitlines_no_newline _ _ Hin) as Hnl.
  split; [|split].
  - split.
    + intros [it Hit]. unfold parse_line in Hit.
      destruct (todo_match line) as [[[m t] cat]|] eqn:Hm; [|discriminate].
      destruct (todo_match_prefix _ _ _ _ Hm) as (r & -> & Hmk & Htt).
      exists m, r. split; [reflexivity|]. split; [exact Hmk|].
      intros ->. discriminate Htt.
    + intros (m & r & -> & Hmk & Hr). unfold parse_line.
      rewrite todo_match_todo_prefix, Hmk.
      destruct r as [|c r']; [congruence|]. unfold text_and_tag.
      destruct (ascii_dec c newline) as [->|Hc].
      { exfalso. apply Hnl, in_todo_prefix. left. reflexivity. }
      destruct (scan [c] r') as [[t cat]|] eqn:Hs; [eexists; reflexivity|].
      exfalso. refine (scan_total [c] r' _ Hs).
      intros Hn. apply Hnl, in_todo_prefix. right. exact Hn.
  - intros m r it -> Hp. unfold parse_line in Hp.
    rewrite todo_match_todo_prefix in Hp.
    destruct (is_mark m) eqn:Hmk; [|discriminate].
    destruct (text_and_tag r) as [[t cat]|] eqn:Htt; [|discriminate].
    injection Hp as <-. split; [apply mark_lower; exact Hmk|].
    destruct r as [|c r']; [discriminate|]. unfold text_and_tag in Htt.
    destruct (ascii_dec c newline); [discriminate|].
    destruct cat as [w'|]; simpl.
    + destruct (scan_tag _ _ _ _ Htt) as (r1 & r2 & -> & _ & Hm2).
      assert (Hw' : w' <> []).
      { apply match_tag_spec in Hm2. destruct Hm2 as (? & ? & _ & _ & _ & H & _). exact H. }
      assert (Hor : or_uncategorized w' = w') by (destruct w'; [congruence|reflexivity]).
      rewrite !Hor. split.
      * intros w (t0 & s1 & s2 & Ht0 & Hr & Hs1 & Hsp1 & Hw & Hww & Hsp2).
        pose proof (tag_form_match s1 w s2 Hs1 Hsp1 Hw Hww Hsp2) as Hm0.
        change (c :: r1 ++ r2) with ((c :: r1) ++ r2) in Hr.
        destruct (List.app_eq_app _ _ _ _ Hr) as (l & [[_ Hl]|[_ Hl]]).
        -- rewrite Hl in Hm0. symmetry. exact (match_tag_suffix_unique _ _ _ _ Hm0 Hm2).
        -- rewrite Hl in Hm2. exact (match_tag_suffix_unique _ _ _ _ Hm2 Hm0).
      * intros Hno. exfalso. apply Hno. exists w'.
        apply match_tag_spec in Hm2. destruct Hm2 as (s1 & s2 & -> & H1 & H2 & H3 & H4 & H5).
        exists (c :: r1), s1, s2. split; [discriminate|]. auto 7.
    + destruct (scan_notag _ _ _ Htt) as (r1 & r2 & -> & _ & Hsp & Hmin).
      split; [|reflexivity].
      intros w (t0 & s1 & s2 & Ht0 & Hr & Hs1 & Hsp1 & Hw & Hww & Hsp2).
      exfalso. pose proof (tag_form_match s1 w s2 Hs1 Hsp1 Hw Hww Hsp2) as Hm0.
      destruct t0 as [|c0 t0']; [congruence|]. injection Hr as _ Hr.
      destruct (List.app_eq_app _ _ _ _ Hr) as (l & [[Hl1 Hl2]|[Hl1 Hl2]]).
      * rewrite (Hmin t0' (s1 ++ "#"%char :: w ++ s2)) in Hm0; [discriminate| |].
        -- rewrite Hr. reflexivity.
        -- rewrite Hl1, length_app. lia.
      * rewrite Hl2 in Hsp. apply Forall_app in Hsp as [_ Hsp].
        apply Forall_app in Hsp as [_ Hsp]. inversion Hsp. discriminate.
  - intros Hn ls. simpl. rewrite Hn. reflexivity.
Qed.

(** ** Serialising then parsing *)

Lemma splitlines_acc_app (cur a rest : str) :
  no_breaks a ->
  splitlines_acc cur (a ++ nl ++ rest) = (rev cur ++ a) :: splitlines_acc [] rest.
Proof.
  intros Ha. revert cur. induction Ha as [|c a Hc Ha IH]; intros cur.
  - simpl. rewrite app_nil_r. reflexivity.
  - simpl. rewrite Hc, IH. simpl. rewrite <- app_assoc. reflexivity.
Qed.

Lemma splitlines_unlines (l : list str) :
  Forall no_breaks l -> splitlines (unlines l) = l.
Proof.
  unfold splitlines, unlines. induction 1 as [|x l Hx Hl IH]; [reflexivity|].
  simpl. rewrite <- app_assoc, splitlines_acc_app by exact Hx. simpl. rewrite IH. reflexivity.
Qed.

Lemma unlines_cons (x : str) (l : list str) : unlines (x :: l) = x ++ nl ++ unlines l.
Proof. unfold unlines. simpl. rewrite <- app_assoc. reflexivity. Qed.

Lemma unlines_nil : unlines [] = [].
Proof. reflexivity. Qed.

Lemma unlines_app (a b : list str) : unlines (a ++ b) = unlines a ++ unlines b.
Proof. unfold unlines. rewrite map_app, concat_app. reflexivity. Qed.

Lemma parse_lines_app (a b : list str) :
  parse_lines (a ++ b) = parse_lines a ++ parse_lines b.
Proof.
  induction a as [|x a IH]; [reflexivity|]. simpl. rewrite IH.
  destruct (parse_line x); reflexivity.
Qed.

Lemma write_items_unlines (l : list TodoItem) :
  write_items l = unlines (map to_markdown l).
Proof. unfold write_items, unlines. rewrite map_map. reflexivity. Qed.

Lemma render_file_lines (file_name : str) (l : list TodoItem) :
  render_file file_name l =
  unlines (header_line file_name :: []
    :: (match filter (fun it => done it = false) l with
        | [] => []
        | nd => lit "## Active" :: [] :: map to_markdown nd ++ [[]]
        end)
    ++ (match filter (fun it => done it = true) l with
        | [] => []
        | d => lit "## Completed" :: [] :: map to_markdown d
        end)).
Proof.
  unfold render_file, header_line.
  destruct (filter (fun it => done it = false) l) as [|x nd];
  destruct (filter (fun it => done it = true) l) as [|y d];
  rewrite ?write_items_unlines, !unlines_cons, ?app_nil_l, ?unlines_app, ?unlines_cons,
    ?unlines_app, ?unlines_cons, ?unlines_nil, ?app_nil_l, ?app_nil_r, <- ?app_assoc;
  reflexivity.
Qed.

Lemma scan_skip (x acc s : str) :
  ~ In newline x ->
  (forall x1 x2, x = x1 ++ x2 -> x2 <> [] ->
     match_tag (x2 ++ s) = None /\ forallb is_space (x2 ++ s) = false) ->
  scan acc (x ++ s) = scan (rev x ++ acc) s.
Proof.
  revert acc. induction x as [|c x IH]; intros acc Hn Hx; [reflexivity|].
  simpl. destruct (Hx [] (c :: x) eq_refl ltac:(discriminate)) as [Ht Hs].
  simpl in Ht, Hs. rewrite Ht, Hs.
  destruct (ascii_dec c newline) as [->|_]; [simpl in Hn; tauto|].
  rewrite IH.
  - rewrite <- app_assoc. reflexivity.
  - simpl in Hn. tauto.
  - intros x1 x2 -> Hne. apply (Hx (c :: x1) x2 eq_refl Hne).
Qed.

Lemma hash_split_left (l1 l2 m1 m2 : str) :
  l1 ++ "#"%char :: m1 = l2 ++ "#"%char :: m2 ->
  ~ In "#"%char m1 -> ~ In "#"%char m2 -> l1 = l2.
Proof.
  intros H H1 H2. pose proof (hash_split_right _ _ _ _ H H1 H2) as ->.
  change ("#"%char :: m2) with (["#"%char] ++ m2) in H.
  rewrite !app_assoc in H. apply app_inv_tail in H. now apply app_inj_tail in H as [-> _].
Qed.

Lemma no_breaks_no_newline (s : str) : no_breaks s -> ~ In newline s.
Proof.
  intros Hs Hin. unfold no_breaks in Hs. rewrite List.Forall_forall in Hs.
  apply Hs in Hin. discriminate.
Qed.

Lemma last_in_suffix (c0 : ascii) (rest pre x1 x2 : str) (c : ascii) :
  c0 :: rest = pre ++ [c] -> rest = x1 ++ x2 -> x2 <> [] -> In c x2.
Proof.
  intros Hl -> Hne. destruct (exists_last Hne) as (x2' & y & ->).
  rewrite app_assoc, app_comm_cons in Hl.
  apply app_inj_tail in Hl as [_ ->]. apply in_or_app. right. left. reflexivity.
Qed.

Lemma forallb_space_false (s : str) (c : ascii) :
  In c s -> is_space c = false -> forallb is_space s = false.
Proof.
  intros Hin Hc. destruct (forallb is_space s) eqn:H; [|reflexivity].
  rewrite forallb_forall in H. rewrite (H c Hin) in Hc. discriminate.
Qed.

(** The checkbox line of an item that round-trips parses back to it. *)
Lemma parse_to_markdown (it : TodoItem) :
  round_trips it -> parse_line (to_markdown it) = Some it.
Proof.
  destruct it as [t d cat].
  intros (Hnb & (pre & lc & Hlast & Hlc) & Hcat). simpl in *.
  assert (Hnl := no_breaks_no_newline _ Hnb).
  destruct t as [|c0 rest].
  { destruct pre; discriminate Hlast. }
  set (ctext := if negb (str_eqb cat []) && negb (str_eqb cat uncategorized)
                then lit " #" ++ cat else []).
  assert (Hmd : to_markdown (mkItem (c0 :: rest) d cat)
                = todo_prefix (if d then "x"%char else " "%char) ((c0 :: rest) ++ ctext))
    by reflexivity.
  rewrite Hmd. unfold parse_line. rewrite todo_match_todo_prefix.
  replace (is_mark (if d then "x"%char else " "%char)) with true by (destruct d; reflexivity).
  simpl app. unfold text_and_tag.
  destruct (ascii_dec c0 newline) as [->|_]; [simpl in Hnl; tauto|].
  assert (Hsuffix : forall x1 x2, rest = x1 ++ x2 -> x2 <> [] -> In lc x2)
    by (intros; eapply last_in_suffix; eauto).
  destruct Hcat as [(-> & Hno)|(Hne & Hu & Hw)].
  - assert (Hc : ctext = []) by reflexivity. rewrite Hc, app_nil_r.
    rewrite <- (app_nil_r rest) at 1. rewrite scan_skip.
    + simpl. rewrite rev_app_distr, rev_involutive. simpl.
      destruct d; reflexivity.
    + simpl in Hnl. tauto.
    + intros x1 x2 Hx Hne. rewrite app_nil_r.
      split; [|eapply forallb_space_false; eauto].
      destruct (match_tag x2) as [w|] eqn:Hm; [|reflexivity].
      exfalso. apply Hno. exists w. apply match_tag_spec in Hm.
      destruct Hm as (s1 & s2 & -> & H1 & H2 & H3 & H4 & H5).
      exists (c0 :: x1), s1, s2. rewrite Hx. split; [discriminate|]. auto 7.
  - assert (Hc : ctext = lit " #" ++ cat).
    { unfold ctext, str_eqb. rewrite !bool_decide_false by auto. reflexivity. }
    rewrite Hc. rewrite scan_skip.
    + assert (Hm : match_tag (lit " #" ++ cat) = Some cat).
      { pose proof (tag_form_match [" "%char] cat []) as H.
        rewrite app_nil_r in H. apply H; auto; discriminate. }
      simpl. simpl in Hm. rewrite Hm. simpl. rewrite rev_app_distr, rev_involutive.
      destruct cat as [|x cat']; [congruence|].
      destruct d; reflexivity.
    + simpl in Hnl. tauto.
    + intros x1 x2 Hx Hne2.
      split; [|eapply forallb_space_false; [apply in_or_app; left; eauto|exact Hlc]].
      destruct (match_tag (x2 ++ lit " #" ++ cat)) as [w|] eqn:Hm; [|reflexivity].
      exfalso. apply match_tag_spec in Hm.
      destruct Hm as (s1 & s2 & Heq & H1 & H2 & H3 & H4 & H5).
      assert (Hl : x2 ++ [" "%char] = s1).
      { assert (Heq' : (x2 ++ [" "%char]) ++ "#"%char :: cat = s1 ++ "#"%char :: w ++ s2)
          by (rewrite <- app_assoc; exact Heq).
        eapply hash_split_left; [exact Heq'| |].
        - intros Hin. rewrite List.Forall_forall in Hw. apply Hw in Hin. discriminate.
        - apply no_hash_word_space; auto. }
      rewrite <- Hl in H2. apply Forall_app in H2 as [H2 _].
      rewrite List.Forall_forall in H2. pose proof (H2 lc (Hsuffix _ _ Hx Hne2)) as Hsp.
      congruence.
Qed.

Lemma case_no_break (c : ascii) :
  is_linebreak c = false ->
  Forall (fun x => is_linebreak x = false) (latin1_title c) /\ is_linebreak (latin1_lower c) = false.
Proof.
  intros H. split.
  - apply List.Forall_forall. intros x Hx.
    assert (Hb : forallb (fun x => negb (is_linebreak x)) (latin1_title c) = true).
    { revert H. destruct c as [[] [] [] [] [] [] [] []]; intros H; vm_compute in H;
        try discriminate H; vm_compute; reflexivity. }
    rewrite forallb_forall in Hb. apply Hb in Hx. destruct (is_linebreak x); [discriminate|reflexivity].
  - revert H. destruct c as [[] [] [] [] [] [] [] []]; intros H; vm_compute in H;
      try discriminate H; vm_compute; reflexivity.
Qed.

Lemma word_no_break (c : ascii) : is_word c = true -> is_linebreak c = false.
Proof. destruct c as [[] [] [] [] [] [] [] []]; vm_compute; congruence. Qed.

Lemma strip_md_cons (c : ascii) (s : str) :
  strip_md (c :: s) =
  match s with
  | c2 :: c3 :: s3 =>
      if decide (c = "."%char /\ c2 = "m"%char /\ c3 = "d"%char)
      then strip_md s3 else c :: strip_md s
  | _ => c :: strip_md s
  end.
Proof.
  destruct s as [|c2 [|c3 s3]].
  - destruct c as [[] [] [] [] [] [] [] []]; reflexivity.
  - destruct c as [[] [] [] [] [] [] [] []]; try reflexivity;
      destruct c2 as [[] [] [] [] [] [] [] []]; reflexivity.
  - destruct (decide _) as [(-> & -> & ->)|Hnot]; [reflexivity|].
    destruct c as [[] [] [] [] [] [] [] []]; try reflexivity;
      destruct c2 as [[] [] [] [] [] [] [] []]; try reflexivity;
      destruct c3 as [[] [] [] [] [] [] [] []]; try reflexivity; tauto.
Qed.

Lemma strip_md_no_breaks (s : str) : no_breaks s -> no_breaks (strip_md s).
Proof.
  remember (length s) as n eqn:Hn. revert s Hn.
  induction n as [n IH] using lt_wf_ind. intros s Hn Hs.
  destruct s as [|c s]; [constructor|]. inversion Hs as [|? ? Hc Hs']; subst.
  assert (Hrec : no_breaks (strip_md s))
    by (eapply (IH (length s)); [simpl; lia|reflexivity|exact Hs']).
  rewrite strip_md_cons.
  destruct s as [|c2 [|c3 s3]]; [constructor; auto|constructor; auto|].
  destruct (decide _); [|constructor; auto].
  inversion Hs' as [|? ? _ Hs2]; subst. inversion Hs2 as [|? ? _ Hs3]; subst.
  eapply (IH (length s3)); [simpl; lia|reflexivity|exact Hs3].
Qed.

Lemma capitalize_no_breaks (s : str) : no_breaks s -> no_breaks (capitalize s).
Proof.
  intros Hs. destruct Hs as [|c s Hc Hs]; [constructor|]. simpl.
  apply Forall_app_2; [apply case_no_break, Hc|].
  induction Hs as [|c' s Hc' Hs IH]; simpl; constructor; auto. apply case_no_break, Hc'.
Qed.

Lemma no_breaks_app (a b : str) : no_breaks a -> no_breaks b -> no_breaks (a ++ b).
Proof. apply Forall_app_2. Qed.

Lemma header_no_breaks (file_name : str) :
  no_breaks file_name -> no_breaks (header_line file_name).
Proof.
  intros H. unfold header_line. apply no_breaks_app; [repeat constructor|].
  apply no_breaks_app; [apply capitalize_no_breaks, strip_md_no_breaks, H|repeat constructor].
Qed.

Lemma to_markdown_no_breaks (it : TodoItem) : round_trips it -> no_breaks (to_markdown it).
Proof.
  intros (Hnb & _ & Hcat). unfold to_markdown.
  apply no_breaks_app; [repeat constructor|]. constructor; [destruct (done it); reflexivity|].
  apply no_breaks_app; [repeat constructor|]. apply no_breaks_app; [exact Hnb|].
  destruct (negb _ && negb _); [|constructor].
  apply no_breaks_app; [repeat constructor|].
  destruct Hcat as [(-> & _)|(_ & _ & Hw)]; [repeat constructor|].
  induction Hw; constructor; auto using word_no_break.
Qed.

Lemma Forall_filter_sub (P : TodoItem -> Prop) `{!forall x, Decision (P x)}
    (Q : TodoItem -> Prop) (l : list TodoItem) :
  Forall Q l -> Forall Q (filter P l).
Proof.
  rewrite !Forall_forall. intros HQ x Hx. apply list_elem_of_filter in Hx. apply HQ, Hx.
Qed.

Lemma parse_lines_markdown (l : list TodoItem) :
  Forall round_trips l -> parse_lines (map to_markdown l) = l.
Proof.
  induction 1 as [|it l Hit Hl IH]; [reflexivity|].
  simpl. rewrite parse_to_markdown by exact Hit. rewrite IH. reflexivity.
Qed.

Lemma parse_lines_skip (l : str) (ls : list str) :
  parse_line l = None -> parse_lines (l :: ls) = parse_lines ls.
Proof. intros H. simpl. rewrite H. reflexivity. Qed.

Lemma header_not_todo (file_name : str) : parse_line (header_line file_name) = None.
Proof. reflexivity. Qed.

(** C2 (amended): [parse_content (render_file f items)] returns the items' not-done
    items followed by their done items, each group in its original order,
    with the same text, done flag and category, when every item
    round-trips (non-empty text without line breaks that does not end in
    whitespace; category "uncategorized" with no trailing [#word] in the
    text, or a non-empty word) and the file name has no line break. *)
Theorem serialize_parse_roundtrip (file_name : str) (items : list TodoItem) :
  no_breaks file_name -> Forall round_trips items ->
  parse_content (render_file file_name items)
  = filter (fun it => done it = false) items ++ filter (fun it => done it = true) items.
Proof.
  intros Hf Hitems. unfold parse_content. rewrite render_file_lines.
  pose proof (Forall_filter_sub (fun it => done it = false) _ _ Hitems) as Hnd.
  pose proof (Forall_filter_sub (fun it => done it = true) _ _ Hitems) as Hd.
  revert Hnd Hd.
  generalize (filter (fun it => done it = false) items) as nd.
  generalize (filter (fun it => done it = true) items) as d.
  intros d nd Hnd Hd.
  assert (Hmd : forall l, Forall round_trips l -> Forall no_breaks (map to_markdown l)).
  { intros l Hl. apply Forall_map. eapply Forall_impl; [exact Hl|]. apply to_markdown_no_breaks. }
  rewrite splitlines_unlines.
  - rewrite parse_lines_skip by apply header_not_todo.
    rewrite parse_lines_skip by reflexivity. rewrite parse_lines_app.
    assert (Ha : parse_lines (match nd with
                              | [] => []
                              | t :: l0 => lit "## Active" :: [] :: map to_markdown (t :: l0) ++ [[]]
                              end) = nd).
    { destruct nd as [|x nd]; [reflexivity|].
      rewrite (parse_lines_skip (lit "## Active")), (parse_lines_skip []) by reflexivity.
      rewrite parse_lines_app, parse_lines_markdown by assumption.
      change (parse_lines [[]]) with (@nil TodoItem). apply app_nil_r. }
    assert (Hc : parse_lines (match d with
                              | [] => []
                              | t :: l0 => lit "## Completed" :: [] :: map to_markdown (t :: l0)
                              end) = d).
    { destruct d as [|y d]; [reflexivity|].
      rewrite (parse_lines_skip (lit "## Completed")), (parse_lines_skip []) by reflexivity.
      apply parse_lines_markdown. assumption. }
    rewrite Ha, Hc. reflexivity.
  - constructor; [apply header_no_breaks, Hf|]. constructor; [constructor|].
    apply Forall_app. split.
    + destruct nd as [|x nd]; [constructor|].
      constructor; [repeat constructor|]. constructor; [constructor|].
      apply Forall_app. split; [apply Hmd; exact Hnd|repeat constructor].
    + destruct d as [|y d]; [constructor|].
      constructor; [repeat constructor|]. constructor; [constructor|].
      apply Hmd; exact Hd.
Qed.

(** ** Preservation through the monad *)

Section Preserves.
Variable I : TodoList -> Prop.

Lemma preserves_ret {A} (a : A) : preserves I (ret a).
Proof. intros s H. exact H. Qed.

Lemma preserves_raise {A} (e : exn) : preserves I (@raise _ A e).
Proof. intros s H. exact H. Qed.

Lemma preserves_modify (f : TodoList -> TodoList) :
  (forall s, I s -> I (f s)) -> preserves I (modify f).
Proof. intros Hf s H. exact (Hf s H). Qed.

Lemma preserves_bind {A B} (m : M TodoList A) (k : A -> M TodoList B) :
  preserves I m -> (forall a, preserves I (k a)) -> preserves I (bind m k).
Proof.
  intros Hm Hk s H. unfold bind. pose proof (Hm s H) as H'.
  destruct (m s) as [s' [a|e]]; [apply Hk|]; exact H'.
Qed.

Lemma preserves_bind_get {B} (k : TodoList -> M TodoList B) :
  (forall s, I s -> I (fst (k s s))) -> preserves I (bind get k).
Proof. intros Hk s H. exact (Hk s H). Qed.
End Preserves.

Create HintDb preserves.
#[local] Hint Resolve preserves_ret preserves_raise : preserves.

Lemma cats_grow_preserves {A} (m : M TodoList A) :
  (forall C, preserves (fun s => C ⊆ categories s) m) -> cats_grow m.
Proof. intros H s. apply (H (categories s) s). reflexivity. Qed.

Lemma alloc_fields (it : TodoItem) (s : TodoList) :
  let s' := fst (alloc it s) in
  todos s' = todos s /\ todo_files s' = todo_files s /\ categories s' = categories s
  /\ next_ref s' = S (next_ref s) /\ heap s' (next_ref s) = it
  /\ (forall r, r <> next_ref s -> heap s' r = heap s r)
  /\ snd (alloc it s) = Ok (next_ref s).
Proof.
  simpl. repeat split. - unfold heap_update. rewrite Nat.eqb_refl. reflexivity.
  - intros r Hr. unfold heap_update. apply Nat.eqb_neq in Hr. rewrite Hr. reflexivity.
Qed.

Lemma load_item_state (f : str) (it : TodoItem) (s : TodoList) :
  load_item f it s =
  (mkTodoList (heap_update (heap s) (next_ref s) it) (S (next_ref s))
     (todos s ++ [next_ref s]) (<[next_ref s := f]> (todo_files s))
     ({[category it]} ∪ categories s) (disk s) (fsys s), Ok tt).
Proof. reflexivity. Qed.

Lemma load_items_preserves (I : TodoList -> Prop) (f : str) (l : list TodoItem) :
  (forall it, preserves I (load_item f it)) -> preserves I (load_items f l).
Proof.
  intros H. induction l as [|it l IH]; simpl; [apply preserves_ret|].
  apply preserves_bind; auto.
Qed.

Lemma load_files_preserves (I : TodoList -> Prop) (fs : Disk) :
  (forall f it, preserves I (load_item f it)) -> preserves I (load_files fs).
Proof.
  intros H. induction fs as [|[f [c| |]] fs IH]; simpl.
  - apply preserves_ret.
  - apply preserves_bind; [apply load_items_preserves; auto|auto].
  - apply preserves_raise.
  - apply preserves_raise.
Qed.

Lemma load_todos_unfold (s : TodoList) :
  load_todos s = load_files (glob_md (disk s)) (set_todo_files ∅ (set_todos [] s)).
Proof. reflexivity. Qed.

Lemma load_todos_preserves (I : TodoList -> Prop) :
  (forall s, I s -> I (set_todo_files ∅ (set_todos [] s))) ->
  (forall f it, preserves I (load_item f it)) -> preserves I load_todos.
Proof.
  intros Hreset Hitem s Hs. rewrite load_todos_unfold.
  apply load_files_preserves; auto.
Qed.

Lemma group_todos_spec (l : list ref) (groups : list (str * list ref)) (s : TodoList) :
  exists F gs, group_todos l groups s = (set_todo_files F s, Ok gs)
    /\ forall r, is_Some (F !! r) -> is_Some (todo_files s !! r) \/ r ∈ l.
Proof.
  revert groups s. induction l as [|r l IH]; intros groups s; simpl.
  - exists (todo_files s), groups. split; [destruct s; reflexivity|]. auto.
  - unfold bind, get. destruct (todo_files s !! r) as [[|c f]|] eqn:Hr.
    + unfold modify. simpl.
      destruct (IH (add_to_group (category (heap s r) ++ lit ".md") r groups)
                  (set_todo_files (<[r:=category (heap s r) ++ lit ".md"]> (todo_files s)) s))
        as (F & gs & Heq & HF).
      exists F, gs. split; [exact Heq|].
      intros r' Hr'. destruct (HF r' Hr') as [H|H]; [|right; set_solver].
      simpl in H. destruct (decide (r' = r)) as [->|Hne]; [right; set_solver|].
      rewrite lookup_insert_ne in H by congruence. auto.
    + destruct (IH (add_to_group (c :: f) r groups) s) as (F & gs & Heq & HF).
      exists F, gs. split; [exact Heq|]. intros r' Hr'.
      destruct (HF r' Hr'); [auto|right; set_solver].
    + unfold modify. simpl.
      destruct (IH (add_to_group (category (heap s r) ++ lit ".md") r groups)
                  (set_todo_files (<[r:=category (heap s r) ++ lit ".md"]> (todo_files s)) s))
        as (F & gs & Heq & HF).
      exists F, gs. split; [exact Heq|].
      intros r' Hr'. destruct (HF r' Hr') as [H|H]; [|right; set_solver].
      simpl in H. destruct (decide (r' = r)) as [->|Hne]; [right; set_solver|].
      rewrite lookup_insert_ne in H by congruence. auto.
Qed.

Lemma write_files_cons_eq (f : str) (rs : list ref) (gs : list (str * list ref)) (s : TodoList) :
  write_files ((f, rs) :: gs) s =
  match open_w (fsys s) f with
  | Raise e => (s, Raise e)
  | Ok loc => write_files gs (fs_write loc (render_file f (map (heap s) rs)) s)
  end.
Proof. simpl. unfold bind, get, modify, raise. destruct (open_w (fsys s) f); reflexivity. Qed.

Lemma fs_write_shape (loc : path * str) (c : str) (s : TodoList) :
  exists d t, fs_write loc c s = set_fsys t (set_disk d s).
Proof.
  unfold fs_write. case_bool_decide.
  - exists (disk_write loc.2 c (disk s)), (fsys s). destruct s; reflexivity.
  - eexists (disk s), _. destruct s; reflexivity.
Qed.

Lemma write_files_spec (gs : list (str * list ref)) (s : TodoList) :
  exists d t x, write_files gs s = (set_fsys t (set_disk d s), x).
Proof.
  revert s. induction gs as [|[f rs] gs IH]; intros s.
  - exists (disk s), (fsys s), (Ok tt). destruct s; reflexivity.
  - rewrite write_files_cons_eq. destruct (open_w (fsys s) f) as [loc|e].
    + destruct (fs_write_shape loc (render_file f (map (heap s) rs)) s) as (d0 & t0 & ->).
      destruct (IH (set_fsys t0 (set_disk d0 s))) as (d & t & x & ->).
      exists d, t, x. destruct s; reflexivity.
    + exists (disk s), (fsys s), (Raise e). destruct s; reflexivity.
Qed.

Lemma save_todos_spec (s : TodoList) :
  exists F d t x, save_todos s = (set_fsys t (set_disk d (set_todo_files F s)), x)
    /\ forall r, is_Some (F !! r) -> is_Some (todo_files s !! r) \/ r ∈ todos s.
Proof.
  unfold save_todos, bind, get.
  destruct (group_todos_spec (todos s) [] s) as (F & gs & Heq & HF). rewrite Heq.
  destruct (write_files_spec gs (set_todo_files F s)) as (d & t & x & Hw). rewrite Hw.
  exists F, d, t, x. split; [reflexivity|exact HF].
Qed.

Lemma add_todo_state (t c : str) (s : TodoList) :
  add_todo t c s =
  (mkTodoList (heap_update (heap s) (next_ref s) (new_TodoItem t false (or_uncategorized c)))
     (S (next_ref s)) (todos s ++ [next_ref s]) (todo_files s)
     ({[or_uncategorized c]} ∪ categories s) (disk s) (fsys s), Ok (next_ref s)).
Proof. reflexivity. Qed.

Lemma delete_todo_fields (r : ref) (s : TodoList) :
  snd (delete_todo r s) = Ok tt
  /\ categories (fst (delete_todo r s)) = categories s
  /\ ((r ∈ todos s /\ todos (fst (delete_todo r s)) = list_remove r (todos s)
       /\ todo_files (fst (delete_todo r s)) = delete r (todo_files s))
      \/ fst (delete_todo r s) = s).
Proof.
  unfold delete_todo, bind, get, modify.
  destruct (decide (r ∈ todos s)) as [Hin|Hnin]; [|auto].
  simpl. destruct (decide (is_Some (todo_files s !! r))) as [Hs|Hs]; simpl.
  - repeat split; auto.
  - repeat split; auto. left. repeat split; auto.
    apply eq_None_not_Some in Hs. rewrite (delete_id _ _ Hs). reflexivity.
Qed.

Lemma list_remove_elem (r x : ref) (l : list ref) :
  x ∈ l -> x <> r -> x ∈ list_remove r l.
Proof.
  induction l as [|y l IH]; simpl; intros Hx Hne; [set_solver|].
  destruct (Nat.eqb y r) eqn:E.
  - apply Nat.eqb_eq in E. subst y. apply elem_of_cons in Hx as [->|Hx]; [congruence|exact Hx].
  - apply elem_of_cons in Hx as [->|Hx]; [left|right; apply IH]; auto.
Qed.

Lemma edit_todo_fields (r : ref) (t c : str) (s : TodoList) :
  snd (edit_todo r t c s) = Ok tt
  /\ categories (fst (edit_todo r t c s)) = categories s
  /\ todos (fst (edit_todo r t c s)) = todos s
  /\ todo_files (fst (edit_todo r t c s)) = todo_files s.
Proof. repeat split. Qed.

Lemma load_todos_cats_grow : cats_grow load_todos.
Proof.
  apply cats_grow_preserves. intros C. apply load_todos_preserves.
  - intros s H. exact H.
  - intros f it s H. rewrite load_item_state. simpl. set_solver.
Qed.

Lemma new_TodoList_uncategorized (d : Disk) :
  uncategorized ∈ categories (fst (new_TodoList d)).
Proof.
  unfold new_TodoList, new_TodoList_in.
  pose proof (load_todos_cats_grow
    (mkTodoList (fun _ => mkItem [] false []) 0 [] ∅ {[uncategorized]} d default_fs)) as H.
  simpl in H. set_solver.
Qed.

(** C8: [categories] starts with ["uncategorized"] and no store operation
    (load, save, add, edit, delete) removes a category from it. *)
Theorem categories_never_shrink (d : Disk) :
  uncategorized ∈ categories (fst (new_TodoList d))
  /\ cats_grow load_todos
  /\ cats_grow save_todos
  /\ (forall t c, cats_grow (add_todo t c))
  /\ (forall r t c, cats_grow (edit_todo r t c))
  /\ (forall r, cats_grow (delete_todo r)).
Proof.
  split; [|split; [exact load_todos_cats_grow|split; [|split; [|split]]]].
  - exact (new_TodoList_uncategorized d).
  - intros s. destruct (save_todos_spec s) as (F & d' & t' & x & -> & _). reflexivity.
  - intros t c s. rewrite add_todo_state. simpl. set_solver.
  - intros r t c s. destruct (edit_todo_fields r t c s) as (_ & -> & _). reflexivity.
  - intros r s. destruct (delete_todo_fields r s) as (_ & -> & _). reflexivity.
Qed.

Lemma load_item_origin_ok (f : str) (it : TodoItem) : preserves origin_ok (load_item f it).
Proof.
  intros s H r Hr. rewrite load_item_state in *. simpl in *.
  destruct (decide (r = next_ref s)) as [->|Hne]; [set_solver|].
  rewrite lookup_insert_ne in Hr by congruence. specialize (H r Hr). set_solver.
Qed.

(** C10: load, save, add and delete keep every key of the origin map
    [todo_files] among the items [todos]. *)
Theorem origin_keys_in_todos :
  preserves origin_ok load_todos
  /\ preserves origin_ok save_todos
  /\ (forall t c, preserves origin_ok (add_todo t c))
  /\ (forall r, preserves origin_ok (delete_todo r)).
Proof.
  split; [|split; [|split]].
  - apply load_todos_preserves; [|exact load_item_origin_ok].
    intros s _ r Hr. simpl in Hr. rewrite lookup_empty in Hr. destruct Hr as [? Hc]; discriminate.
  - intros s H. destruct (save_todos_spec s) as (F & d & t & x & -> & HF).
    intros r Hr. simpl in *. destruct (HF r Hr) as [H'|H']; auto.
  - intros t c s H r Hr. rewrite add_todo_state in *. simpl in *.
    specialize (H r Hr). set_solver.
  - intros r s H. destruct (delete_todo_fields r s) as (_ & _ & [(Hin & Ht & Hf) | ->]); [|exact H].
    intros r' Hr'. rewrite Ht. rewrite Hf in Hr'.
    destruct (decide (r' = r)) as [->|Hne]; [rewrite lookup_delete_eq in Hr'; destruct Hr' as [? Hc]; discriminate|].
    rewrite lookup_delete_ne in Hr' by congruence. apply list_remove_elem; auto.
Qed.

Lemma map_heap_update_fresh (h : ref -> TodoItem) (n : ref) (it : TodoItem) (l : list ref) :
  Forall (fun r => r < n) l -> map (heap_update h n it) l = map h l.
Proof.
  induction 1 as [|r l Hr _ IH]; simpl; [reflexivity|].
  unfold heap_update at 1. destruct (Nat.eqb r n) eqn:E; [apply Nat.eqb_eq in E; lia|].
  rewrite IH. reflexivity.
Qed.

Lemma load_items_cons (f : str) (it : TodoItem) (l : list TodoItem) (s : TodoList) :
  load_items f (it :: l) s = load_items f l (fst (load_item f it s)).
Proof. reflexivity. Qed.

Lemma load_items_spec (f : str) (l : list TodoItem) (s : TodoList) :
  refs_fresh s ->
  let s' := fst (load_items f l s) in
  snd (load_items f l s) = Ok tt /\ refs_fresh s'
  /\ map (heap s') (todos s') = map (heap s) (todos s) ++ l
  /\ categories s' = categories s ∪ list_to_set (map category l).
Proof.
  revert s. induction l as [|it l IH]; intros s Hs.
  - simpl. repeat split; auto. rewrite app_nil_r. reflexivity. set_solver.
  - rewrite load_items_cons, load_item_state. simpl fst.
    set (s1 := mkTodoList _ _ _ _ _ _ _).
    assert (Hs1 : refs_fresh s1).
    { unfold refs_fresh in *. simpl. apply Forall_app. split; [|repeat constructor; lia].
      eapply Forall_impl; [exact Hs|]. simpl. intros; lia. }
    destruct (IH s1 Hs1) as (Hok & Hf & Hmap & Hcat).
    repeat split; auto.
    + rewrite Hmap. simpl. rewrite map_app. simpl.
      rewrite map_heap_update_fresh by exact Hs.
      unfold heap_update at 1. rewrite Nat.eqb_refl. rewrite <- app_assoc. reflexivity.
    + rewrite Hcat. simpl. set_solver.
Qed.

Lemma load_files_spec (fs : Disk) (ps : list TodoItem) (s : TodoList) :
  refs_fresh s -> parsed_files fs = Some ps ->
  let s' := fst (load_files fs s) in
  snd (load_files fs s) = Ok tt
  /\ map (heap s') (todos s') = map (heap s) (todos s) ++ ps
  /\ categories s' = categories s ∪ list_to_set (map category ps).
Proof.
  revert ps s. induction fs as [|[f [c| |]] fs IH]; intros ps s Hs Hp; simpl in *.
  - injection Hp as <-. repeat split. rewrite app_nil_r. reflexivity. set_solver.
  - destruct (parsed_files fs) as [ps'|] eqn:Hp'; [|discriminate]. injection Hp as <-.
    unfold bind. destruct (load_items_spec f (parse_content c) s Hs) as (Hok & Hf & Hmap & Hcat).
    destruct (load_items f (parse_content c) s) as [s1 r1] eqn:E. simpl in *. subst r1.
    destruct (IH ps' s1 Hf eq_refl) as (Hok' & Hmap' & Hcat').
    repeat split; auto.
    + rewrite Hmap', Hmap, <- app_assoc. reflexivity.
    + rewrite Hcat', Hcat, map_app, list_to_set_app_L. set_solver.
  - discriminate.
  - discriminate.
Qed.

Lemma load_items_ok (f : str) (l : list TodoItem) (s : TodoList) :
  snd (load_items f l s) = Ok tt.
Proof.
  revert s. induction l as [|it l IH]; intros s; [reflexivity|].
  simpl. unfold bind at 1. rewrite load_item_state. apply IH.
Qed.

Lemma load_files_cons_some (f c : str) (fs : Disk) (s : TodoList) :
  load_files ((f, Text c) :: fs) s = load_files fs (fst (load_items f (parse_content c) s)).
Proof.
  simpl. unfold bind at 1. pose proof (load_items_ok f (parse_content c) s) as Hok.
  destruct (load_items f (parse_content c) s) as [s1 r1]. simpl in Hok. subst r1. reflexivity.
Qed.

Lemma load_files_app (pre rest : Disk) (s : TodoList) :
  Forall (fun x => is_text x.2 = true) pre ->
  snd (load_files pre s) = Ok tt
  /\ load_files (pre ++ rest) s = load_files rest (fst (load_files pre s)).
Proof.
  intros H. revert s. induction H as [|[f c] pre Hc _ IH]; intros s; [simpl; auto|].
  destruct c as [c| |]; [|discriminate Hc|discriminate Hc].
  rewrite <- app_comm_cons, !load_files_cons_some. apply IH.
Qed.

Lemma scenario_C_disk_eq :
  scenario_C_disk = [(lit "home.md", Text (unlines scenario_C_lines))].
Proof. vm_compute. reflexivity. Qed.

Lemma scenario_C_lines_split : splitlines (unlines scenario_C_lines) = scenario_C_lines.
Proof. vm_compute. reflexivity. Qed.

(** C3 (counterexample): after [add_todo "buy milk" "home"] and [save_todos],
    [home.md] is the only file and no line of it is [- [ ] buy milk]; the
    line written is [- [ ] buy milk #home]. *)
Lemma scenario_C_bare_line_absent :
  exists c, scenario_C_disk = [(lit "home.md", Text c)]
    /\ ~ In (lit "- [ ] buy milk") (splitlines c)
    /\ In (lit "- [ ] buy milk #home") (splitlines c).
Proof.
  exists (unlines scenario_C_lines). split; [exact scenario_C_disk_eq|].
  rewrite scenario_C_lines_split. split.
  - intros H. vm_compute in H. repeat destruct H as [H|H]; try discriminate; exact H.
  - vm_compute. right; right; right; right; left. reflexivity.
Qed.

(** C3 (amended): the checkbox line of an item is [- [ ] <text>] or
    [- [x] <text>], followed by [ #<category>] unless the category is empty
    or "uncategorized"; after [add_todo "buy milk" "home"] and [save_todos]
    over an empty directory, [home.md] holds the lines [# Home Tasks], [],
    [## Active], [], [- [ ] buy milk #home], []. *)
Theorem checkbox_line_with_tag (it : TodoItem) :
  ((category it = [] \/ category it = uncategorized) ->
     to_markdown it = todo_prefix (if done it then "x"%char else " "%char) (text it))
  /\ (category it <> [] -> category it <> uncategorized ->
     to_markdown it = todo_prefix (if done it then "x"%char else " "%char)
                        (text it ++ lit " #" ++ category it))
  /\ scenario_C_disk = [(lit "home.md", Text (unlines scenario_C_lines))]
  /\ splitlines (unlines scenario_C_lines) = scenario_C_lines.
Proof.
  unfold to_markdown, todo_prefix, str_eqb. split; [|split; [|split]].
  - intros [H|H]; rewrite H; [rewrite bool_decide_eq_true_2 by reflexivity|
      rewrite (bool_decide_eq_true_2 (uncategorized = uncategorized)) by reflexivity;
      rewrite andb_false_r];
      simpl; rewrite ?app_nil_r; reflexivity.
  - intros H1 H2. rewrite !bool_decide_eq_false_2 by assumption. reflexivity.
  - exact scenario_C_disk_eq.
  - exact scenario_C_lines_split.
Qed.

(** C4 (counterexample): a category added before [load_todos] survives it,
    although the directory holds no file. *)
Lemma reload_keeps_old_category :
  lit "home" ∈ categories reload_after_add /\ todos reload_after_add = []
  /\ disk reload_after_add = []
  /\ categories reload_after_add <> {[uncategorized]}.
Proof.
  assert (H : lit "home" ∈ categories reload_after_add).
  { apply (bool_decide_unpack _). vm_compute. exact I. }
  split; [exact H|split; [vm_compute; reflexivity|split; [vm_compute; reflexivity|]]].
  intros E. rewrite E in H. apply elem_of_singleton in H. discriminate H.
Qed.

(** C4 (amended): when every [.md] file is readable, [load_todos] replaces
    the items by those parsed from the files, in order, but adds the parsed
    categories to the categories already present instead of resetting them;
    a fresh store over an empty directory has categories {"uncategorized"}
    and no item. *)
Theorem load_replaces_items_accumulates_categories (s : TodoList) (ps : list TodoItem) :
  parsed_files (glob_md (disk s)) = Some ps ->
  snd (load_todos s) = Ok tt
  /\ map (heap (fst (load_todos s))) (todos (fst (load_todos s))) = ps
  /\ categories (fst (load_todos s)) = categories s ∪ list_to_set (map category ps)
  /\ categories (fst (new_TodoList [])) = {[uncategorized]}
  /\ todos (fst (new_TodoList [])) = [].
Proof.
  intros Hp. rewrite load_todos_unfold.
  assert (Hf : refs_fresh (set_todo_files ∅ (set_todos [] s))) by constructor.
  destruct (load_files_spec _ ps _ Hf Hp) as (Hok & Hmap & Hcat).
  split; [exact Hok|split; [exact Hmap|split; [exact Hcat|split; reflexivity]]].
Qed.

Lemma load_C4_witness :
  parsed_files (glob_md (disk (mkTodoList (fun _ => mkItem [] false []) 0 [] ∅
      {[uncategorized]} [(lit "a.md", Text (lit "- [ ] t #w"))] default_fs)))
    = Some [mkItem (lit "t") false (lit "w")]
  /\ snd (load_todos (mkTodoList (fun _ => mkItem [] false []) 0 [] ∅
      {[uncategorized]} [(lit "a.md", Text (lit "- [ ] t #w"))] default_fs)) = Ok tt.
Proof.
  assert (Hp : parsed_files (glob_md (disk (mkTodoList (fun _ => mkItem [] false []) 0 [] ∅
      {[uncategorized]} [(lit "a.md", Text (lit "- [ ] t #w"))] default_fs)))
    = Some [mkItem (lit "t") false (lit "w")]) by (vm_compute; reflexivity).
  split; [exact Hp|].
  exact (proj1 (load_replaces_items_accumulates_categories _ _ Hp)).
Defined.

(** C5 (counterexample): with [a.md] not valid UTF-8 and [b.md] holding a
    todo, [new_TodoList] raises [UnicodeDecodeError] and the item of [b.md]
    is not loaded. *)
Lemma bad_first_file_aborts :
  snd (new_TodoList bad_first_disk) = Raise UnicodeDecodeError
  /\ todos (fst (new_TodoList bad_first_disk)) = []
  /\ parse_content (lit "- [ ] t") = [mkItem (lit "t") false uncategorized].
Proof. split; [|split]; vm_compute; reflexivity. Qed.

(** C5 (amended): [load_todos] reads the [.md] files in listing order and
    does not catch errors: at the first file [f] that is not readable text
    it raises, [IOError f] when [open] refuses it and [UnicodeDecodeError]
    when it is not valid UTF-8; the items of the files before [f] stay
    loaded and no later file is read. *)
Theorem load_stops_at_unreadable (s : TodoList) (pre post : Disk) (f : str) (x : file) :
  glob_md (disk s) = pre ++ (f, x) :: post ->
  is_text x = false ->
  Forall (fun y => is_text y.2 = true) pre ->
  fst (load_todos s) = fst (load_files pre (set_todo_files ∅ (set_todos [] s)))
  /\ (x = Unreadable -> snd (load_todos s) = Raise (IOError f))
  /\ (x = BadEncoding -> snd (load_todos s) = Raise UnicodeDecodeError)
  /\ forall ps, parsed_files pre = Some ps ->
     map (heap (fst (load_todos s))) (todos (fst (load_todos s))) = ps.
Proof.
  intros Hd Hx Hpre.
  assert (Heq : load_todos s =
    load_files ((f, x) :: post) (fst (load_files pre (set_todo_files ∅ (set_todos [] s))))).
  { rewrite load_todos_unfold, Hd.
    destruct (load_files_app pre ((f, x) :: post) (set_todo_files ∅ (set_todos [] s)) Hpre)
      as [_ ->].
    reflexivity. }
  assert (Hst : fst (load_todos s) = fst (load_files pre (set_todo_files ∅ (set_todos [] s)))).
  { rewrite Heq. destruct x; [discriminate Hx|reflexivity|reflexivity]. }
  split; [exact Hst|split; [|split]].
  - intros ->. rewrite Heq. reflexivity.
  - intros ->. rewrite Heq. reflexivity.
  - intros ps Hps. rewrite Hst.
    assert (Hf : refs_fresh (set_todo_files ∅ (set_todos [] s))) by constructor.
    destruct (load_files_spec _ ps _ Hf Hps) as (_ & Hmap & _). exact Hmap.
Qed.

Lemma load_C5_witness :
  snd (load_todos (mkTodoList (fun _ => mkItem [] false []) 0 [] ∅ {[uncategorized]}
    [(lit "a.md", Text (lit "- [ ] t")); (lit "b.md", Unreadable); (lit "c.md", Text (lit "- [x] u"))]
    default_fs))
  = Raise (IOError (lit "b.md")).
Proof.
  apply (proj1 (proj2 (load_stops_at_unreadable
    (mkTodoList (fun _ => mkItem [] false []) 0 [] ∅ {[uncategorized]}
      [(lit "a.md", Text (lit "- [ ] t")); (lit "b.md", Unreadable); (lit "c.md", Text (lit "- [x] u"))]
      default_fs)
    [(lit "a.md", Text (lit "- [ ] t"))] [(lit "c.md", Text (lit "- [x] u"))] (lit "b.md") Unreadable
    ltac:(vm_compute; reflexivity) eq_refl ltac:(repeat constructor)))).
  reflexivity.
Defined.

Lemma triple_ret {A} (P Q : TodoApp -> Prop) (x : A) :
  (forall a, P a -> Q a) -> triple P Q (ret x).
Proof. intros H a Ha. exact (H a Ha). Qed.

Lemma triple_modify (P Q : TodoApp -> Prop) f :
  (forall a, P a -> Q (f a)) -> triple P Q (modify f).
Proof. intros H a Ha. exact (H a Ha). Qed.

Lemma triple_raise {A} (P Q : TodoApp -> Prop) e : triple P Q (@raise _ A e).
Proof. intros a _. exact I. Qed.

Lemma triple_bind {A B} (P R Q : TodoApp -> Prop) (m : M TodoApp A) (k : A -> M TodoApp B) :
  triple P R m -> (forall x, triple R Q (k x)) -> triple P Q (bind m k).
Proof.
  intros Hm Hk a Ha. unfold bind. specialize (Hm a Ha).
  destruct (m a) as [a' [x|e]]; [apply Hk; exact Hm|exact I].
Qed.

Lemma triple_get {B} (P Q : TodoApp -> Prop) (k : TodoApp -> M TodoApp B) :
  (forall a0, triple (fun a => P a /\ a = a0) Q (k a0)) -> triple P Q (bind get k).
Proof. intros H a Ha. exact (H a a (conj Ha eq_refl)). Qed.

Lemma triple_conseq {A} (P P' Q : TodoApp -> Prop) (m : M TodoApp A) :
  (forall a, P a -> P' a) -> triple P' Q m -> triple P Q m.
Proof. intros H Hm a Ha. exact (Hm a (H a Ha)). Qed.

Lemma uct_spec (a : TodoApp) :
  update_category_tabs a =
  (if (Z.of_nat (length (get_categories (todo_list a))) <=? current_category_idx a)%Z
   then set_category_idx 0 a else a, Ok tt).
Proof. unfold update_category_tabs, bind, get. destruct (_ <=? _)%Z; reflexivity. Qed.

Lemma py_index_nil {A} (i : Z) : py_index (@nil A) i = None.
Proof. unfold py_index. repeat destruct (_ && _); destruct (Z.to_nat i), (Z.to_nat (Z.of_nat (length (@nil A)) + i)); reflexivity. Qed.

Lemma utl_spec (a : TodoApp) (cur : str) :
  py_index (get_categories (todo_list a)) (current_category_idx a) = Some cur ->
  update_todo_list a =
  (if (count_shown a cur <=? selected_idx a)%Z
   then set_selected_idx (Z.max 0 (count_shown a cur - 1)) a else a, Ok tt).
Proof.
  intros H. unfold update_todo_list, bind, get, index_or_raise.
  destruct (get_categories (todo_list a)) as [|c cs] eqn:E; [rewrite py_index_nil in H; discriminate H|].
  rewrite H. unfold count_shown, ret. destruct (_ <=? _)%Z; reflexivity.
Qed.

Lemma py_index_in_range {A} (l : list A) (i : Z) :
  (0 <= i < Z.of_nat (length l))%Z -> exists x, py_index l i = Some x.
Proof.
  intros Hi. unfold py_index.
  replace ((0 <=? i)%Z && (i <? Z.of_nat (length l))%Z) with true
    by (symmetry; apply andb_true_intro; split; [apply Z.leb_le|apply Z.ltb_lt]; lia).
  destruct (nth_error l (Z.to_nat i)) eqn:E; [eauto|].
  apply nth_error_None in E. lia.
Qed.

Lemma utl_triple : triple (fun a => uncategorized ∈ categories (todo_list a)
    /\ (0 <= current_category_idx a < Z.of_nat (length (get_categories (todo_list a))))%Z
    /\ (0 <= selected_idx a)%Z) app_inv update_todo_list.
Proof.
  intros a (Hu & Hi & Hs).
  destruct (py_index_in_range _ _ Hi) as [cur Hcur].
  rewrite (utl_spec a cur Hcur).
  destruct (count_shown a cur <=? selected_idx a)%Z eqn:E.
  - apply Z.leb_le in E. split; [exact Hu|split; [exact Hi|split; [simpl; lia|]]].
    intros cur' Hcur'. change (todo_list (set_selected_idx _ a)) with (todo_list a) in *.
    change (current_category_idx (set_selected_idx _ a)) with (current_category_idx a) in *.
    rewrite Hcur in Hcur'. injection Hcur' as <-.
    unfold count_shown in *. simpl. lia.
  - apply Z.leb_gt in E. split; [exact Hu|split; [exact Hi|split; [exact Hs|]]].
    intros cur' Hcur'. rewrite Hcur in Hcur'. injection Hcur' as <-. left; exact E.
Qed.

Lemma get_categories_elem (s : TodoList) (x : str) :
  x ∈ get_categories s <-> x ∈ categories s.
Proof.
  unfold get_categories. rewrite (merge_sort_Permutation str_le (elements (categories s))).
  apply elem_of_elements.
Qed.

Lemma get_categories_length (s : TodoList) :
  uncategorized ∈ categories s -> (0 < Z.of_nat (length (get_categories s)))%Z.
Proof.
  intros H. apply get_categories_elem in H.
  destruct (get_categories s); [apply elem_of_nil in H; contradiction|simpl; lia].
Qed.

Lemma get_categories_same (s s' : TodoList) :
  categories s' = categories s -> get_categories s' = get_categories s.
Proof. unfold get_categories. intros ->. reflexivity. Qed.

Lemma list_index_nonneg (x : str) (l : list str) : (0 <= list_index x l)%Z.
Proof. induction l as [|y l IH]; simpl; [lia|]. destruct (str_eqb x y); lia. Qed.

Lemma app_inv_P1 (a : TodoApp) : app_inv a -> P1 a.
Proof. intros (Hu & Hi & Hs & _). split; [exact Hu|split; [exact Hi|exact Hs]]. Qed.

Lemma P1_P0 (a : TodoApp) : P1 a -> P0 a.
Proof. intros (Hu & Hi & Hs). split; [exact Hu|split; [lia|exact Hs]]. Qed.

Lemma tabs_triple : triple P0 P1 update_category_tabs.
Proof.
  intros a (Hu & Hi & Hs). rewrite uct_spec.
  pose proof (get_categories_length _ Hu) as Hn.
  destruct (_ <=? _)%Z eqn:E.
  - split; [exact Hu|split; [simpl; lia|exact Hs]].
  - apply Z.leb_gt in E. split; [exact Hu|split; [lia|exact Hs]].
Qed.

Lemma tabs_list_triple : triple P0 app_inv (update_category_tabs ;; update_todo_list).
Proof. apply (triple_bind _ P1); [exact tabs_triple|intros _; exact utl_triple]. Qed.

Lemma footer_triple (P : TodoApp -> Prop) (t : str) :
  (forall a, P a -> P (set_footer (lit " " ++ t ++ lit " ") a)) -> triple P P (set_footer_text t).
Proof. intros H. apply triple_modify. exact H. Qed.

Lemma app_inv_footer (t : str) : triple app_inv app_inv (set_footer_text t).
Proof. apply footer_triple. intros a Ha. exact Ha. Qed.

Lemma app_inv_widget (w : Widget) : triple app_inv app_inv (modify (set_widget w)).
Proof. apply triple_modify. intros a Ha. exact Ha. Qed.

Lemma triple_pure {A} (P : TodoApp -> Prop) (m : M TodoApp A) : pure m -> triple P P m.
Proof.
  intros Hm a Ha. specialize (Hm a). destruct (m a) as [a' [x|e]]; simpl in Hm; subst; auto.
Qed.

Lemma index_or_raise_pure {A} (l : list A) (i : Z) : pure (index_or_raise l i).
Proof. intros a. unfold index_or_raise. destruct (py_index l i); reflexivity. Qed.

Lemma current_todos_pure : pure current_todos.
Proof.
  intros a. unfold current_todos, bind, get, index_or_raise.
  destruct (py_index _ _); reflexivity.
Qed.

Lemma on_list_triple {A} (P Q : TodoApp -> Prop) (m : M TodoList A) :
  (forall a, P a -> Q (set_todo_list (fst (m (todo_list a))) a)) -> triple P Q (on_list m).
Proof.
  intros H a Ha. unfold on_list. specialize (H a Ha).
  destruct (m (todo_list a)) as [t' [x|e]]; simpl in *; auto.
Qed.

Lemma on_list_grow {A} (m : M TodoList A) : cats_grow m -> triple app_inv P0 (on_list m).
Proof.
  intros Hm. apply on_list_triple. intros a (Hu & Hi & Hs & _).
  split; [apply (Hm (todo_list a)); exact Hu|split; simpl; lia].
Qed.

Lemma on_list_same_cats {A} (m : M TodoList A) :
  (forall s, categories (fst (m s)) = categories s) -> triple app_inv P1 (on_list m).
Proof.
  intros Hm. apply on_list_triple. intros a (Hu & Hi & Hs & _).
  unfold P1. simpl. rewrite (get_categories_same _ _ (Hm (todo_list a))), Hm.
  split; [exact Hu|split; [exact Hi|exact Hs]].
Qed.

Lemma on_list_save : triple app_inv app_inv (on_list save_todos).
Proof.
  apply on_list_triple. intros a Ha.
  destruct (save_todos_spec (todo_list a)) as (F & d & t & x & -> & _). exact Ha.
Qed.

Ltac peel := apply triple_get; let a0 := fresh "a0" in intros a0; cbv beta.
Ltac drop_eq P := apply (triple_conseq _ P); [intros ? [? _]; assumption|].

Lemma move_category_triple (delta : Z) : triple app_inv app_inv (move_category delta).
Proof.
  unfold move_category. peel.
  destruct (get_categories (todo_list a0)) as [|c cs] eqn:Ec.
  - apply triple_ret. intros a [Ha _]. exact Ha.
  - apply (triple_bind _ P0); [|intros _; apply (triple_bind _ P0); [|intros _; exact tabs_list_triple]].
    + apply triple_modify. intros a [(Hu & _ & Hs & _) ->].
      split; [exact Hu|split; [simpl|exact Hs]].
      apply Z.mod_pos_bound. simpl. lia.
    + apply triple_modify. intros a (Hu & Hi & _). split; [exact Hu|split; [exact Hi|simpl; lia]].
Qed.

Lemma toggle_cats (r : ref) (s : TodoList) :
  categories (fst (modify (fun s =>
    mkTodoList (heap_update (heap s) r (toggle (heap s r)))
      (next_ref s) (todos s) (todo_files s) (categories s) (disk s) (fsys s)) s)) = categories s.
Proof. reflexivity. Qed.

Lemma handle_action_triple (act : action) : triple app_inv app_inv (handle_action act).
Proof.
  destruct act; simpl handle_action.
  - apply triple_raise.
  - apply (triple_bind _ app_inv); [exact on_list_save|intros _; apply app_inv_footer].
  - apply (triple_bind _ P0); [apply on_list_grow; exact load_todos_cats_grow|intros _].
    apply (triple_bind _ P1); [exact tabs_triple|intros _].
    apply (triple_bind _ app_inv); [exact utl_triple|intros _; apply app_inv_footer].
  - peel. drop_eq app_inv.
    apply (triple_bind _ app_inv); [apply triple_pure, index_or_raise_pure|intros cur].
    apply app_inv_widget.
  - apply move_category_triple.
  - apply move_category_triple.
  - peel. destruct (0 <? selected_idx a0)%Z eqn:E.
    + apply (triple_bind _ P1); [|intros _; exact utl_triple].
      apply triple_modify. intros a [Ha ->]. apply app_inv_P1 in Ha as (Hu & Hi & _).
      apply Z.ltb_lt in E. split; [exact Hu|split; [exact Hi|simpl; lia]].
    + apply triple_ret. intros a [Ha _]. exact Ha.
  - peel. destruct (get_categories (todo_list a0)) as [|c cs] eqn:Ec.
    + apply triple_ret. intros a [Ha _]. exact Ha.
    + apply (triple_bind _ (fun a => app_inv a /\ a = a0)); [apply triple_pure, current_todos_pure|].
      intros shown. destruct (_ <? _)%Z eqn:E.
      * apply (triple_bind _ P1); [|intros _; exact utl_triple].
        apply triple_modify. intros a [Ha ->]. apply app_inv_P1 in Ha as (Hu & Hi & Hs).
        split; [exact Hu|split; [exact Hi|simpl; lia]].
      * apply triple_ret. intros a [Ha _]. exact Ha.
  - peel. drop_eq app_inv. destruct (get_categories (todo_list a0)) as [|c cs] eqn:Ec.
    + apply triple_ret. auto.
    + apply (triple_bind _ app_inv); [apply triple_pure, current_todos_pure|].
      intros shown. destruct (valid_selection _ _).
      * apply (triple_bind _ app_inv); [apply triple_pure, index_or_raise_pure|intros r].
        apply (triple_bind _ P1); [apply on_list_same_cats; intros s; reflexivity|intros _].
        apply (triple_bind _ app_inv); [exact utl_triple|intros _].
        peel. drop_eq app_inv. apply app_inv_footer.
      * apply triple_ret. auto.
  - peel. drop_eq app_inv. destruct (get_categories (todo_list a0)) as [|c cs] eqn:Ec.
    + apply triple_ret. auto.
    + apply (triple_bind _ app_inv); [apply triple_pure, current_todos_pure|].
      intros shown. destruct (valid_selection _ _).
      * apply (triple_bind _ app_inv); [apply triple_pure, index_or_raise_pure|intros r].
        apply app_inv_widget.
      * apply triple_ret. auto.
  - peel. drop_eq app_inv. destruct (get_categories (todo_list a0)) as [|c cs] eqn:Ec.
    + apply triple_ret. auto.
    + apply (triple_bind _ app_inv); [apply triple_pure, current_todos_pure|].
      intros shown. destruct (valid_selection _ _).
      * apply (triple_bind _ app_inv); [apply triple_pure, index_or_raise_pure|intros r].
        apply app_inv_widget.
      * apply triple_ret. auto.
  - apply triple_raise.
Qed.

Lemma select_category_triple (c : str) (cats : list str) :
  triple (fun a => P0 a) P0
    (if bool_decide (c ∈ cats) then modify (set_category_idx (list_index c cats)) else ret tt).
Proof.
  destruct (bool_decide _).
  - apply triple_modify. intros a (Hu & _ & Hs).
    split; [exact Hu|split; [apply list_index_nonneg|exact Hs]].
  - apply triple_ret. auto.
Qed.

Lemma add_on_save_triple (t c : str) : triple app_inv app_inv (add_on_save t c).
Proof.
  unfold add_on_save.
  apply (triple_bind _ app_inv); [|intros _; apply app_inv_widget].
  destruct (strip t) as [|x t'].
  - apply triple_ret. auto.
  - apply (triple_bind _ P0); [apply on_list_grow; intros s; rewrite add_todo_state; simpl; set_solver|].
    intros _. peel. drop_eq P0.
    apply (triple_bind _ P0); [apply select_category_triple|intros _].
    apply (triple_bind _ P1); [exact tabs_triple|intros _].
    apply (triple_bind _ app_inv); [exact utl_triple|intros _; apply app_inv_footer].
Qed.

Lemma edit_on_save_triple (r : ref) (t c : str) : triple app_inv app_inv (edit_on_save r t c).
Proof.
  unfold edit_on_save.
  apply (triple_bind _ P0); [apply on_list_grow; intros s; reflexivity|intros _].
  peel. drop_eq P0.
  apply (triple_bind _ P0); [apply select_category_triple|intros _].
  apply (triple_bind _ P1); [exact tabs_triple|intros _].
  apply (triple_bind _ app_inv); [exact utl_triple|intros _].
  peel. drop_eq app_inv.
  apply (triple_bind _ app_inv); [apply app_inv_footer|intros _; apply app_inv_widget].
Qed.

Lemma delete_on_yes_triple (r : ref) : triple app_inv app_inv (delete_on_yes r).
Proof.
  unfold delete_on_yes.
  apply (triple_bind _ P1);
    [apply on_list_same_cats; intros s; apply (delete_todo_fields r s)|intros _].
  apply (triple_bind _ app_inv); [exact utl_triple|intros _].
  apply (triple_bind _ app_inv); [apply app_inv_footer|intros _; apply app_inv_widget].
Qed.

Lemma step_triple (ev : event) : triple app_inv app_inv (step ev).
Proof.
  unfold step. peel. drop_eq app_inv.
  destruct ev, (widget a0);
    try (apply triple_ret; now auto); try apply app_inv_widget.
  all: try apply add_on_save_triple; try apply edit_on_save_triple; try apply delete_on_yes_triple.
  all: unfold handle_input; peel; drop_eq app_inv;
       destruct (action_of _ _); [apply handle_action_triple|apply triple_ret; now auto].
Qed.

Lemma new_TodoApp_inv (d : Disk) (km : action -> str) :
  match new_TodoApp d km with (a, Ok _) => app_inv a | (_, Raise _) => True end.
Proof.
  unfold new_TodoApp.
  pose proof (new_TodoList_uncategorized d) as Hu.
  destruct (new_TodoList d) as [tl [x|e]]; [|exact I].
  apply tabs_list_triple. split; [exact Hu|split; simpl; lia].
Qed.

Lemma move_category_spec (delta : Z) (a : TodoApp) :
  get_categories (todo_list a) <> [] ->
  exists a', move_category delta a = (a', Ok tt)
    /\ current_category_idx a' = ((current_category_idx a + delta)
                                  mod Z.of_nat (length (get_categories (todo_list a))))%Z
    /\ selected_idx a' = 0%Z /\ todo_list a' = todo_list a.
Proof.
  intros Hne. set (n := Z.of_nat (length (get_categories (todo_list a)))).
  assert (Hn : (0 < n)%Z) by (unfold n; destruct (get_categories (todo_list a)); [congruence|simpl; lia]).
  set (a1 := set_selected_idx 0 (set_category_idx ((current_category_idx a + delta) mod n) a)).
  assert (Hk : (0 <= current_category_idx a1 < n)%Z) by (apply Z.mod_pos_bound; exact Hn).
  assert (Hm : move_category delta a = (update_category_tabs ;; update_todo_list) a1).
  { unfold move_category, bind at 1, get. destruct (get_categories (todo_list a)); [congruence|].
    reflexivity. }
  rewrite Hm. unfold bind at 1. rewrite uct_spec.
  change (get_categories (todo_list a1)) with (get_categories (todo_list a)).
  fold n. replace (n <=? current_category_idx a1)%Z with false by (symmetry; apply Z.leb_gt; lia).
  destruct (py_index_in_range (get_categories (todo_list a)) (current_category_idx a1) Hk)
    as [cur Hcur].
  rewrite (utl_spec a1 cur Hcur).
  destruct (count_shown a1 cur <=? selected_idx a1)%Z eqn:E; eexists; (split; [reflexivity|]).
  - apply Z.leb_le in E. simpl. split; [reflexivity|split; [|reflexivity]].
    change (selected_idx a1) with 0%Z in E. unfold count_shown in *. lia.
  - simpl. split; [reflexivity|split; reflexivity].
Qed.

Lemma py_index_nonneg {A} (l : list A) (i : Z) (x : A) :
  (0 <= i)%Z -> py_index l i = Some x -> (i < Z.of_nat (length l))%Z.
Proof.
  intros Hi H. unfold py_index in H.
  destruct ((0 <=? i)%Z && (i <? Z.of_nat (length l))%Z) eqn:E.
  - apply andb_prop in E as [_ E]. apply Z.ltb_lt in E. exact E.
  - destruct ((- Z.of_nat (length l) <=? i)%Z && (i <? 0)%Z) eqn:E2; [|discriminate H]. apply andb_prop in E2 as [_ E2].
    apply Z.ltb_lt in E2. lia.
Qed.

Lemma toggled_by_category (s : TodoList) (r : ref) (c : str) :
  get_todos_by_category (toggled s r) c = get_todos_by_category s c.
Proof.
  unfold get_todos_by_category. apply list_filter_iff. intros r'. simpl.
  unfold heap_update. destruct (Nat.eqb r' r) eqn:E; [|reflexivity].
  apply Nat.eqb_eq in E. subst r'. destruct (heap s r). reflexivity.
Qed.

Lemma toggle_valid_spec (a : TodoApp) (cur : str) (r : ref) :
  py_index (get_categories (todo_list a)) (current_category_idx a) = Some cur ->
  py_index (get_todos_by_category (todo_list a) cur) (selected_idx a) = Some r ->
  (0 <= selected_idx a)%Z ->
  exists a', handle_action Toggle a = (a', Ok tt)
    /\ todo_list a' = toggled (todo_list a) r
    /\ current_category_idx a' = current_category_idx a /\ selected_idx a' = selected_idx a.
Proof.
  intros Hc Hr Hs.
  pose proof (py_index_nonneg _ _ _ Hs Hr) as Hlt.
  set (shown := get_todos_by_category (todo_list a) cur) in *.
  assert (Hv : valid_selection shown (selected_idx a) = true).
  { unfold valid_selection. rewrite bool_decide_eq_false_2.
    - simpl. apply andb_true_intro. split; [apply Z.leb_le|apply Z.ltb_lt]; lia.
    - intros E. rewrite E in Hlt. simpl in Hlt. lia. }
  set (a1 := set_todo_list (toggled (todo_list a) r) a).
  assert (Hc1 : py_index (get_categories (todo_list a1)) (current_category_idx a1) = Some cur)
    by exact Hc.
  assert (Hstep : handle_action Toggle a =
    (let* _ := update_todo_list in
     let* a := get in set_footer_text (lit "Toggled: " ++ text (heap (todo_list a) r))) a1).
  { simpl handle_action. unfold bind at 1, get.
    destruct (get_categories (todo_list a)) as [|c cs] eqn:Ec; [rewrite py_index_nil in Hc; discriminate|].
    unfold bind at 1, current_todos, bind at 1 2, get, index_or_raise.
    rewrite Ec, Hc. unfold ret. fold shown. rewrite Hv. rewrite Hr.
    reflexivity. }
  rewrite Hstep. unfold bind at 1. rewrite (utl_spec a1 cur Hc1).
  replace (count_shown a1 cur <=? selected_idx a1)%Z with false.
  - eexists. split; [reflexivity|]. split; [reflexivity|split; reflexivity].
  - symmetry. apply Z.leb_gt. unfold count_shown. simpl todo_list.
    rewrite toggled_by_category. exact Hlt.
Qed.

(** C6 (counterexample): with the fourth of four items of tab [a]
    selected, category_next moves to tab [b] (two items) and sets the
    selection to 0, not to max(0, 2-1) = 1. *)
Lemma switch_resets_selection :
  get_categories (todo_list fourth_selected) = [lit "a"; lit "b"; uncategorized]
  /\ current_category_idx fourth_selected = 0%Z /\ selected_idx fourth_selected = 3%Z
  /\ count_shown fourth_selected (lit "a") = 4%Z
  /\ snd after_switch = Ok tt
  /\ current_category_idx (fst after_switch) = 1%Z
  /\ count_shown (fst after_switch) (lit "b") = 2%Z
  /\ selected_idx (fst after_switch) = 0%Z
  /\ selected_idx (fst after_switch) <> Z.max 0 (count_shown (fst after_switch) (lit "b") - 1).
Proof. vm_compute. repeat split; discriminate. Qed.

(** C6 (amended): the application starts with its indices in range, every
    event that returns normally keeps the category index in
    [0, len(categories)-1] and the selection in [0, count-1] (0 when the tab
    is empty); [update_todo_list] lowers a selection past the end to
    max(0, count-1), while category_prev/next reset it to 0. *)
Theorem selection_stays_clamped :
  (forall d km, match new_TodoApp d km with (a, Ok _) => app_inv a | (_, Raise _) => True end)
  /\ (forall ev, triple app_inv app_inv (step ev))
  /\ (forall a cur,
        py_index (get_categories (todo_list a)) (current_category_idx a) = Some cur ->
        (count_shown a cur <= selected_idx a)%Z ->
        update_todo_list a = (set_selected_idx (Z.max 0 (count_shown a cur - 1)) a, Ok tt))
  /\ (forall a delta, get_categories (todo_list a) <> [] ->
        selected_idx (fst (move_category delta a)) = 0%Z).
Proof.
  split; [exact new_TodoApp_inv|split; [exact step_triple|split]].
  - intros a cur Hc Hle. rewrite (utl_spec a cur Hc).
    replace (count_shown a cur <=? selected_idx a)%Z with true by (symmetry; apply Z.leb_le; exact Hle).
    reflexivity.
  - intros a delta Hne. destruct (move_category_spec delta a Hne) as (a' & -> & _ & Hs & _).
    exact Hs.
Qed.

(** C7: on a non-empty category list, category_next and category_prev set
    the category index to (index +/- 1) mod n and the selection to 0;
    category_next from the last category goes to index 0. *)
Theorem category_next_prev_cycle (a : TodoApp) :
  get_categories (todo_list a) <> [] ->
  let n := Z.of_nat (length (get_categories (todo_list a))) in
  snd (handle_action CategoryNext a) = Ok tt
  /\ current_category_idx (fst (handle_action CategoryNext a)) = ((current_category_idx a + 1) mod n)%Z
  /\ selected_idx (fst (handle_action CategoryNext a)) = 0%Z
  /\ snd (handle_action CategoryPrev a) = Ok tt
  /\ current_category_idx (fst (handle_action CategoryPrev a)) = ((current_category_idx a - 1) mod n)%Z
  /\ selected_idx (fst (handle_action CategoryPrev a)) = 0%Z
  /\ (current_category_idx a = n - 1 -> current_category_idx (fst (handle_action CategoryNext a)) = 0)%Z.
Proof.
  intros Hne n. simpl handle_action.
  destruct (move_category_spec 1 a Hne) as (an & -> & Hin & Hsn & _).
  destruct (move_category_spec (-1) a Hne) as (ap & -> & Hip & Hsp & _).
  fold n in Hin, Hip. simpl.
  assert (Hn : (0 < n)%Z) by (unfold n; destruct (get_categories (todo_list a)); [congruence|simpl; lia]).
  split; [reflexivity|split; [exact Hin|split; [exact Hsn|split; [reflexivity|split; [exact Hip|split; [exact Hsp|]]]]]].
  intros Hlast. rewrite Hin, Hlast. replace (n - 1 + 1)%Z with n by lia. apply Z_mod_same_full.
Qed.

Lemma category_next_prev_cycle_witness :
  get_categories (todo_list sample_app) <> []
  /\ current_category_idx (fst (handle_action CategoryNext sample_app)) = 0%Z.
Proof.
  assert (Hne : get_categories (todo_list sample_app) <> []) by (vm_compute; discriminate).
  split; [exact Hne|].
  destruct (category_next_prev_cycle sample_app Hne) as (_ & _ & _ & _ & _ & _ & Hlast).
  apply Hlast. vm_compute. reflexivity.
Defined.

(** C9: toggling the selected item leaves the item sequence, the origin
    map, the categories, every other item and the selected item's text and
    category as they were, and negates the selected item's done flag. *)
Theorem toggle_changes_only_done (a : TodoApp) (cur : str) (r : ref) :
  py_index (get_categories (todo_list a)) (current_category_idx a) = Some cur ->
  py_index (get_todos_by_category (todo_list a) cur) (selected_idx a) = Some r ->
  (0 <= selected_idx a)%Z ->
  let (a', res) := handle_action Toggle a in
  let s := todo_list a in
  let s' := todo_list a' in
  res = Ok tt
  /\ todos s' = todos s /\ todo_files s' = todo_files s /\ categories s' = categories s
  /\ (forall r', r' <> r -> heap s' r' = heap s r')
  /\ text (heap s' r) = text (heap s r) /\ category (heap s' r) = category (heap s r)
  /\ done (heap s' r) = negb (done (heap s r)).
Proof.
  intros Hc Hr Hs. destruct (toggle_valid_spec a cur r Hc Hr Hs) as (a' & -> & Ht & _).
  rewrite Ht. unfold toggled, heap_update. simpl. rewrite Nat.eqb_refl.
  repeat split; try reflexivity.
  intros r' Hne. apply Nat.eqb_neq in Hne. rewrite Hne. reflexivity.
Qed.

Lemma toggle_changes_only_done_witness :
  done (heap (todo_list (fst (handle_action Toggle sample_app))) 0) = true.
Proof.
  pose proof (toggle_changes_only_done sample_app uncategorized 0
    ltac:(vm_compute; reflexivity) ltac:(vm_compute; reflexivity) ltac:(vm_compute; discriminate)) as H.
  destruct (handle_action Toggle sample_app) as [a' res].
  destruct H as (_ & _ & _ & _ & _ & _ & _ & Hd). simpl. rewrite Hd. vm_compute. reflexivity.
Defined.

Lemma parse_line_grammar_witness :
  In (lit "- [ ] buy milk #home") (splitlines (lit "- [ ] buy milk #home"))
  /\ grammar_match (lit "- [ ] buy milk #home").
Proof.
  assert (Hin : In (lit "- [ ] buy milk #home") (splitlines (lit "- [ ] buy milk #home")))
    by (vm_compute; left; reflexivity).
  split; [exact Hin|].
  apply (proj1 (proj1 (parse_line_grammar _ _ Hin))).
  vm_compute. eexists. reflexivity.
Defined.

(** C2 (counterexample): a done item written before a not-done one comes
    back after it, so the parsed sequence differs from the written one in
    (text, done). *)
Lemma roundtrip_reorders :
  map (fun it => (text it, done it))
      (parse_content (render_file (lit "todo.md")
         [mkItem (lit "a") true uncategorized; mkItem (lit "b") false uncategorized]))
  <> map (fun it => (text it, done it))
         [mkItem (lit "a") true uncategorized; mkItem (lit "b") false uncategorized].
Proof. vm_compute. discriminate. Qed.

Lemma serialize_parse_roundtrip_witness :
  parse_content (render_file (lit "home.md") [mkItem (lit "buy milk") false (lit "home")])
  = [mkItem (lit "buy milk") false (lit "home")].
Proof.
  assert (Hf : no_breaks (lit "home.md")) by (repeat constructor).
  assert (Hit : Forall round_trips [mkItem (lit "buy milk") false (lit "home")]).
  { constructor; [|constructor]. split; [repeat constructor|split].
    - exists (lit "buy mil"), "k"%char. split; reflexivity.
    - right. split; [discriminate|split; [discriminate|repeat constructor]]. }
  rewrite (serialize_parse_roundtrip _ _ Hf Hit). reflexivity.
Defined.

(** * Further properties of the store and the interface *)

Lemma str_eqb_spec (a b : str) : str_eqb a b = true <-> a = b.
Proof. unfold str_eqb. apply bool_decide_eq_true. Qed.

Lemma str_eqb_false (a b : str) : str_eqb a b = false <-> a <> b.
Proof. unfold str_eqb. apply bool_decide_eq_false. Qed.

Lemma str_eqb_refl (a : str) : str_eqb a a = true.
Proof. apply str_eqb_spec. reflexivity. Qed.

Lemma target_file_cons (s : TodoList) (r : ref) : exists c f, target_file s r = c :: f.
Proof.
  unfold target_file. destruct (todo_files s !! r) as [[|c f]|]; eauto;
  destruct (category (heap s r)) as [|c f]; simpl; eauto.
Qed.

Lemma target_file_insert (s : TodoList) (r r' : ref) :
  target_file (set_todo_files (<[r := target_file s r]> (todo_files s)) s) r' = target_file s r'.
Proof.
  unfold target_file at 1. simpl. destruct (decide (r' = r)) as [->|Hne].
  - rewrite lookup_insert_eq. destruct (target_file_cons s r) as (c & f & E). rewrite E. reflexivity.
  - rewrite lookup_insert_ne by congruence. reflexivity.
Qed.

Lemma add_to_group_assoc (f g : str) (r : ref) (gs : list (str * list ref)) :
  assoc_refs g (add_to_group f r gs) =
  if str_eqb f g then assoc_refs g gs ++ [r] else assoc_refs g gs.
Proof.
  induction gs as [|[h rs] gs IH]; simpl.
  - destruct (str_eqb f g); reflexivity.
  - destruct (str_eqb h f) eqn:Ehf.
    + apply str_eqb_spec in Ehf. subst h. simpl. destruct (str_eqb f g); reflexivity.
    + simpl. rewrite IH. destruct (str_eqb h g) eqn:Ehg; [|reflexivity].
      apply str_eqb_spec in Ehg. subst h. apply str_eqb_false in Ehf.
      rewrite (proj2 (str_eqb_false f g)) by congruence. reflexivity.
Qed.

Lemma add_to_group_keys (f g : str) (r : ref) (gs : list (str * list ref)) :
  g ∈ map fst (add_to_group f r gs) <-> g ∈ map fst gs \/ g = f.
Proof.
  induction gs as [|[h rs] gs IH]; simpl.
  - set_solver.
  - destruct (str_eqb h f) eqn:Ehf.
    + apply str_eqb_spec in Ehf. subst h. simpl. set_solver.
    + simpl. set_solver.
Qed.

Lemma add_to_group_nodup (f : str) (r : ref) (gs : list (str * list ref)) :
  NoDup (map fst gs) -> NoDup (map fst (add_to_group f r gs)).
Proof.
  induction gs as [|[h rs] gs IH]; simpl; intros H.
  - constructor; [set_solver|constructor].
  - apply NoDup_cons in H as [Hh Hgs]. destruct (str_eqb h f) eqn:Ehf; simpl.
    + constructor; assumption.
    + constructor; [|auto]. rewrite add_to_group_keys. apply str_eqb_false in Ehf. set_solver.
Qed.

Lemma group_todos_full (l : list ref) (groups : list (str * list ref)) (s : TodoList) :
  exists F gs, group_todos l groups s = (set_todo_files F s, Ok gs)
    /\ (forall r, r ∈ l -> F !! r = Some (target_file s r))
    /\ (forall r, r ∉ l -> F !! r = todo_files s !! r)
    /\ (forall g, assoc_refs g gs = assoc_refs g groups ++ filter (fun r => target_file s r = g) l)
    /\ (NoDup (map fst groups) -> NoDup (map fst gs))
    /\ (forall g, g ∈ map fst gs <-> g ∈ map fst groups \/ exists r, r ∈ l /\ target_file s r = g).
Proof.
  revert groups s. induction l as [|r l IH]; intros groups s.
  - exists (todo_files s), groups. split; [destruct s; reflexivity|].
    split; [set_solver|split; [auto|split; [intros g; simpl; rewrite app_nil_r; reflexivity|]]].
    split; [auto|set_solver].
  - assert (Hstep : exists s1, group_todos (r :: l) groups s
                      = group_todos l (add_to_group (target_file s r) r groups) s1
                    /\ s1 = set_todo_files (<[r := target_file s r]> (todo_files s)) s).
    { simpl. unfold bind, get. unfold target_file.
      destruct (todo_files s !! r) as [[|c f]|] eqn:Hr.
      - eexists. split; [reflexivity|reflexivity].
      - exists s. split; [reflexivity|]. rewrite insert_id by exact Hr. destruct s; reflexivity.
      - eexists. split; [reflexivity|reflexivity]. }
    destruct Hstep as (s1 & Heq & Hs1). rewrite Heq.
    destruct (IH (add_to_group (target_file s r) r groups) s1)
      as (F & gs & Hg & Hin & Hout & Has & Hnd & Hkeys).
    assert (Ht : forall r', target_file s1 r' = target_file s r')
      by (intros r'; rewrite Hs1; apply target_file_insert).
    exists F, gs. split; [rewrite Hg, Hs1; destruct s; reflexivity|].
    split; [|split; [|split; [|split]]].
    + intros r' Hr'. destruct (decide (r' ∈ l)) as [Hl|Hl].
      * rewrite Hin by exact Hl. rewrite Ht. reflexivity.
      * apply elem_of_cons in Hr' as [->|Hr']; [|contradiction].
        rewrite Hout by exact Hl. rewrite Hs1. simpl. rewrite lookup_insert_eq. reflexivity.
    + intros r' Hr'. apply not_elem_of_cons in Hr' as [Hne Hl].
      rewrite Hout by exact Hl. rewrite Hs1. simpl. rewrite lookup_insert_ne by congruence. reflexivity.
    + intros g. rewrite Has, add_to_group_assoc. simpl.
      rewrite (list_filter_iff (fun r0 => target_file s1 r0 = g) (fun r0 => target_file s r0 = g))
        by (intros x; rewrite Ht; reflexivity).
      destruct (str_eqb (target_file s r) g) eqn:E.
      * apply str_eqb_spec in E. rewrite filter_cons_True by exact E. rewrite <- app_assoc. reflexivity.
      * apply str_eqb_false in E. rewrite filter_cons_False by exact E. reflexivity.
    + intros H. apply Hnd. apply add_to_group_nodup. exact H.
    + intros g. rewrite Hkeys, add_to_group_keys. split.
      * intros [[H|H]|(r' & Hr' & Hg')]; [auto|right; exists r; set_solver|].
        right. exists r'. rewrite Ht in Hg'. set_solver.
      * intros [H|(r' & Hr' & Hg')]; [auto|].
        apply elem_of_cons in Hr' as [->|Hr']; [left; right; congruence|].
        right. exists r'. rewrite Ht. auto.
Qed.

Lemma disk_write_lookup (f g c : str) (d : Disk) :
  disk_lookup g (disk_write f c d) = if str_eqb f g then Some (Text c) else disk_lookup g d.
Proof.
  induction d as [|[h x] d IH]; simpl.
  - destruct (str_eqb f g); reflexivity.
  - destruct (str_eqb h f) eqn:Ehf; simpl.
    + apply str_eqb_spec in Ehf. subst h. destruct (str_eqb f g); reflexivity.
    + rewrite IH. destruct (str_eqb h g) eqn:Ehg; [|reflexivity].
      apply str_eqb_spec in Ehg. subst h. apply str_eqb_false in Ehf.
      rewrite (proj2 (str_eqb_false f g)) by congruence. reflexivity.
Qed.

Lemma outside_write_lookup (p q : path) (c : str) (l : list (path * str)) :
  outside_lookup q (outside_write p c l) = if bool_decide (p = q) then Some c else outside_lookup q l.
Proof.
  induction l as [|[h x] l IH]; simpl.
  - destruct (bool_decide (p = q)); reflexivity.
  - destruct (bool_decide (h = p)) eqn:Ehp; simpl.
    + apply bool_decide_eq_true in Ehp. subst h. destruct (bool_decide (p = q)); reflexivity.
    + rewrite IH. apply bool_decide_eq_false in Ehp.
      destruct (bool_decide (h = q)) eqn:Ehq; [|reflexivity].
      apply bool_decide_eq_true in Ehq. subst h.
      rewrite bool_decide_eq_false_2 by congruence. reflexivity.
Qed.

Lemma fs_write_fields (loc : path * str) (c : str) (s : TodoList) :
  let s' := fs_write loc c s in
  heap s' = heap s /\ todos s' = todos s /\ todo_files s' = todo_files s
  /\ categories s' = categories s /\ todo_dir (fsys s') = todo_dir (fsys s)
  /\ dirs (fsys s') = dirs (fsys s).
Proof. unfold fs_write. case_bool_decide; simpl; repeat split. Qed.

Lemma walk_ext (t t' : FileSystem) (cur : path) (cs : list str) :
  (forall p, is_dir t p = is_dir t' p) -> walk t cur cs = walk t' cur cs.
Proof.
  intros Hd. destruct cs as [|c cs]; [reflexivity|]. revert c cur.
  induction cs as [|c' cs IH]; intros c cur; [simpl; rewrite Hd; reflexivity|].
  change (walk t cur (c :: c' :: cs)) with
    (if str_eqb c [] || str_eqb c (lit ".") then walk t cur (c' :: cs)
     else if str_eqb c (lit "..") then walk t (removelast cur) (c' :: cs)
     else if is_dir t (cur ++ [c]) then walk t (cur ++ [c]) (c' :: cs) else None).
  change (walk t' cur (c :: c' :: cs)) with
    (if str_eqb c [] || str_eqb c (lit ".") then walk t' cur (c' :: cs)
     else if str_eqb c (lit "..") then walk t' (removelast cur) (c' :: cs)
     else if is_dir t' (cur ++ [c]) then walk t' (cur ++ [c]) (c' :: cs) else None).
  rewrite !IH, Hd. reflexivity.
Qed.

Lemma open_w_ext (t t' : FileSystem) (f : str) :
  todo_dir t = todo_dir t' -> dirs t = dirs t' -> open_w t f = open_w t' f.
Proof.
  intros Ht Hd. unfold open_w, join_todo. rewrite Ht.
  rewrite (walk_ext t t'); [reflexivity|]. intros p. unfold is_dir. rewrite Ht, Hd. reflexivity.
Qed.

Lemma open_w_fs_write (loc : path * str) (c : str) (s : TodoList) (f : str) :
  open_w (fsys (fs_write loc c s)) f = open_w (fsys s) f.
Proof.
  destruct (fs_write_fields loc c s) as (_ & _ & _ & _ & Ht & Hd). apply open_w_ext; assumption.
Qed.

Lemma file_at_fs_write (loc loc' : path * str) (c : str) (s : TodoList) :
  file_at (fs_write loc c s) loc'
  = if bool_decide (loc = loc') then Some (Text c) else file_at s loc'.
Proof.
  destruct loc as [p n], loc' as [p' n']. unfold file_at, fs_write. simpl.
  destruct (decide (p = todo_dir (fsys s))) as [Hp|Hp].
  - rewrite (bool_decide_eq_true_2 (p = todo_dir (fsys s))) by exact Hp. simpl.
    destruct (decide (p' = todo_dir (fsys s))) as [Hp'|Hp'].
    + rewrite !(bool_decide_eq_true_2 (p' = todo_dir (fsys s))) by exact Hp'.
      rewrite disk_write_lookup. unfold str_eqb.
      destruct (decide (n = n')) as [->|Hn].
      * rewrite !bool_decide_eq_true_2 by congruence. reflexivity.
      * rewrite !bool_decide_eq_false_2 by congruence. reflexivity.
    + rewrite !(bool_decide_eq_false_2 (p' = todo_dir (fsys s))) by exact Hp'.
      rewrite bool_decide_eq_false_2 by congruence. reflexivity.
  - rewrite (bool_decide_eq_false_2 (p = todo_dir (fsys s))) by exact Hp. simpl.
    destruct (decide (p' = todo_dir (fsys s))) as [Hp'|Hp'].
    + rewrite !(bool_decide_eq_true_2 (p' = todo_dir (fsys s))) by exact Hp'.
      rewrite bool_decide_eq_false_2 by congruence. reflexivity.
    + rewrite !(bool_decide_eq_false_2 (p' = todo_dir (fsys s))) by exact Hp'.
      rewrite outside_write_lookup.
      destruct (decide ((p, n) = (p', n'))) as [E|E].
      * injection E as -> ->. rewrite !bool_decide_eq_true_2 by reflexivity. reflexivity.
      * rewrite (bool_decide_eq_false_2 ((p, n) = (p', n'))) by exact E.
        rewrite bool_decide_eq_false_2; [reflexivity|].
        intros Happ. apply app_inj_tail in Happ as [-> ->]. contradiction.
Qed.

Lemma fs_write_disk (loc : path * str) (c : str) (s : TodoList) :
  disk (fs_write loc c s) = disk s \/ disk (fs_write loc c s) = disk_write loc.2 c (disk s).
Proof. unfold fs_write. case_bool_decide; simpl; auto. Qed.

Lemma write_files_fields (gs : list (str * list ref)) (s : TodoList) :
  let s' := fst (write_files gs s) in
  heap s' = heap s /\ todos s' = todos s /\ todo_files s' = todo_files s
  /\ categories s' = categories s /\ todo_dir (fsys s') = todo_dir (fsys s)
  /\ dirs (fsys s') = dirs (fsys s)
  /\ forall loc, (forall g, g ∈ map fst gs -> open_w (fsys s) g <> Ok loc) ->
       file_at s' loc = file_at s loc.
Proof.
  cbv zeta. revert s. induction gs as [|[f rs] gs IH]; intros s.
  - simpl. repeat split.
  - rewrite write_files_cons_eq.
    destruct (open_w (fsys s) f) as [loc0|e] eqn:Eo; [|simpl; repeat split].
    set (s1 := fs_write loc0 (render_file f (map (heap s) rs)) s).
    destruct (fs_write_fields loc0 (render_file f (map (heap s) rs)) s) as (H1 & H2 & H3 & H4 & H5 & H6).
    destruct (IH s1) as (Hh & Ht & Hf & Hc & Htd & Hd & Hl). fold s1 in H1, H2, H3, H4, H5, H6.
    split; [congruence|split; [congruence|split; [congruence|split; [congruence|]]]].
    split; [congruence|split; [congruence|]].
    intros loc Hloc. rewrite Hl.
    + unfold s1. rewrite file_at_fs_write. rewrite bool_decide_eq_false_2; [reflexivity|].
      intros <-. apply (Hloc f); [left|exact Eo].
    + intros g Hg. unfold s1. rewrite open_w_fs_write. apply Hloc. right. exact Hg.
Qed.

Lemma write_files_ok (gs : list (str * list ref)) (s : TodoList) :
  NoDup (map fst gs) -> snd (write_files gs s) = Ok tt ->
  forall f loc, f ∈ map fst gs -> open_w (fsys s) f = Ok loc ->
  (forall g, g ∈ map fst gs -> open_w (fsys s) g = Ok loc -> g = f) ->
  file_at (fst (write_files gs s)) loc = Some (Text (render_file f (map (heap s) (assoc_refs f gs)))).
Proof.
  revert s. induction gs as [|[f0 rs] gs IH]; intros s Hnd Hok f loc Hf Ho Hu;
    [apply elem_of_nil in Hf; contradiction|].
  rewrite write_files_cons_eq in *. simpl in Hnd. apply NoDup_cons in Hnd as [Hf0 Hnd].
  destruct (open_w (fsys s) f0) as [loc0|e] eqn:Eo; [|discriminate Hok].
  set (s1 := fs_write loc0 (render_file f0 (map (heap s) rs)) s) in *.
  destruct (fs_write_fields loc0 (render_file f0 (map (heap s) rs)) s) as (H1 & _).
  fold s1 in H1.
  destruct (decide (f = f0)) as [->|Hne].
  - assert (Hl : loc0 = loc) by congruence. subst loc0.
    destruct (write_files_fields gs s1) as (_ & _ & _ & _ & _ & _ & Hl).
    rewrite Hl.
    + unfold s1. rewrite file_at_fs_write, bool_decide_eq_true_2 by reflexivity.
      simpl. rewrite str_eqb_refl. reflexivity.
    + intros g Hg Eg. unfold s1 in Eg. rewrite open_w_fs_write in Eg.
      assert (g = f0) by (apply Hu; [right; exact Hg|exact Eg]). subst g. contradiction.
  - simpl. rewrite (proj2 (str_eqb_false f0 f)) by congruence.
    apply elem_of_cons in Hf as [Hf|Hf]; [simpl in Hf; contradiction|].
    rewrite <- H1. apply IH; [exact Hnd|exact Hok|exact Hf|unfold s1; rewrite open_w_fs_write; exact Ho|].
    intros g Hg Eg. unfold s1 in Eg. rewrite open_w_fs_write in Eg. apply Hu; [right; exact Hg|exact Eg].
Qed.

Lemma save_todos_decompose (s : TodoList) :
  exists F gs, save_todos s = write_files gs (set_todo_files F s)
    /\ (forall r, r ∈ todos s -> F !! r = Some (target_file s r))
    /\ (forall r, r ∉ todos s -> F !! r = todo_files s !! r)
    /\ (forall g, assoc_refs g gs = filter (fun r => target_file s r = g) (todos s))
    /\ NoDup (map fst gs)
    /\ (forall g, g ∈ map fst gs <-> exists r, r ∈ todos s /\ target_file s r = g).
Proof.
  destruct (group_todos_full (todos s) [] s) as (F & gs & Hg & Hin & Hout & Has & Hnd & Hk).
  exists F, gs. split; [unfold save_todos, bind, get; rewrite Hg; reflexivity|].
  split; [exact Hin|split; [exact Hout|split; [exact Has|split]]].
  - apply Hnd. constructor.
  - intros g. rewrite Hk. set_solver.
Qed.

Lemma write_files_some (gs : list (str * list ref)) (s : TodoList) (g : str) :
  disk_lookup g (disk (fst (write_files gs s))) = disk_lookup g (disk s)
  \/ exists c, disk_lookup g (disk (fst (write_files gs s))) = Some (Text c).
Proof.
  revert s. induction gs as [|[f rs] gs IH]; intros s; [left; reflexivity|].
  rewrite write_files_cons_eq. destruct (open_w (fsys s) f) as [loc|e]; [|left; reflexivity].
  destruct (IH (fs_write loc (render_file f (map (heap s) rs)) s)) as [H|H]; [|right; exact H].
  rewrite H. destruct (fs_write_disk loc (render_file f (map (heap s) rs)) s) as [E|E];
    rewrite E; [left; reflexivity|].
  rewrite disk_write_lookup. destruct (str_eqb loc.2 g); [right; eauto|left; reflexivity].
Qed.

Lemma set_todo_files_fsys (F : gmap ref str) (s : TodoList) : fsys (set_todo_files F s) = fsys s.
Proof. reflexivity. Qed.

Lemma file_at_set_todo_files (F : gmap ref str) (s : TodoList) (loc : path * str) :
  file_at (set_todo_files F s) loc = file_at s loc.
Proof. reflexivity. Qed.

(** [save_todos] records, for every item, the file it is written to: the item's
    [todo_files] entry if it is a non-empty name, else [<category>.md]. It
    does so even when a write then fails, and changes no other entry, item
    or category. *)
Theorem save_assigns_origins (s : TodoList) :
  let s' := fst (save_todos s) in
  (forall r, r ∈ todos s -> todo_files s' !! r = Some (target_file s r))
  /\ (forall r, r ∉ todos s -> todo_files s' !! r = todo_files s !! r)
  /\ heap s' = heap s /\ todos s' = todos s /\ categories s' = categories s.
Proof.
  destruct (save_todos_decompose s) as (F & gs & -> & Hin & Hout & _).
  destruct (write_files_fields gs (set_todo_files F s)) as (Hh & Ht & Hf & Hc & _).
  simpl in *. rewrite Hf, Hh, Ht, Hc. auto.
Qed.

Lemma save_group_content (s : TodoList) (r : ref) (loc : path * str) :
  snd (save_todos s) = Ok tt -> r ∈ todos s ->
  open_w (fsys s) (target_file s r) = Ok loc ->
  (forall r', r' ∈ todos s -> open_w (fsys s) (target_file s r') = Ok loc ->
     target_file s r' = target_file s r) ->
  file_at (fst (save_todos s)) loc
  = Some (Text (render_file (target_file s r)
      (map (heap s) (filter (fun r' => target_file s r' = target_file s r) (todos s))))).
Proof.
  intros Hok Hr Ho Hu.
  destruct (save_todos_decompose s) as (F & gs & Heq & _ & _ & Has & Hnd & Hk).
  rewrite Heq in *. rewrite (write_files_ok gs _ Hnd Hok (target_file s r) loc).
  - rewrite Has. reflexivity.
  - apply Hk. eauto.
  - exact Ho.
  - intros g Hg Eg. apply Hk in Hg as (r' & Hr' & <-). apply Hu; assumption.
Qed.

(** After a successful [save_todos], the file that an item's target name
    opens holds the rendering of exactly the items with that target, in
    list order, when no other target name opens the same file and the
    header of the name is in the model's characters. *)
Theorem save_writes_groups (s : TodoList) (r : ref) (loc : path * str) :
  snd (save_todos s) = Ok tt -> r ∈ todos s ->
  open_w (fsys s) (target_file s r) = Ok loc ->
  (forall r', r' ∈ todos s -> open_w (fsys s) (target_file s r') = Ok loc ->
     target_file s r' = target_file s r) ->
  header_in_model (target_file s r) = true ->
  file_at (fst (save_todos s)) loc
  = Some (Text (render_file (target_file s r)
      (map (heap s) (filter (fun r' => target_file s r' = target_file s r) (todos s))))).
Proof. intros Hok Hr Ho Hu _. exact (save_group_content s r loc Hok Hr Ho Hu). Qed.

(** [save_todos] leaves every file that no item's target name opens as it
    was, even when it raises: stale files of deleted or re-homed items stay. *)
Theorem save_keeps_other_files (s : TodoList) (loc : path * str) :
  (forall r, r ∈ todos s -> open_w (fsys s) (target_file s r) <> Ok loc) ->
  file_at (fst (save_todos s)) loc = file_at s loc.
Proof.
  intros Hg. destruct (save_todos_decompose s) as (F & gs & -> & _ & _ & _ & _ & Hk).
  destruct (write_files_fields gs (set_todo_files F s)) as (_ & _ & _ & _ & _ & _ & Hd).
  rewrite Hd; [reflexivity|]. intros g Hgin. apply Hk in Hgin as (r & Hr & <-). exact (Hg r Hr).
Qed.

(** [save_todos] never removes a file from the directory. *)
Theorem save_never_removes_files (s : TodoList) (g : str) :
  is_Some (disk_lookup g (disk s)) -> is_Some (disk_lookup g (disk (fst (save_todos s)))).
Proof.
  intros H. destruct (save_todos_decompose s) as (F & gs & -> & _).
  destruct (write_files_some gs (set_todo_files F s) g) as [E|[c E]]; rewrite E; [exact H|eauto].
Qed.

Lemma write_files_last (gs : list (str * list ref)) (s : TodoList) (loc : path * str) :
  NoDup (map fst gs) -> snd (write_files gs s) = Ok tt ->
  (file_at (fst (write_files gs s)) loc = file_at s loc
   /\ forall g, g ∈ map fst gs -> open_w (fsys s) g <> Ok loc)
  \/ exists g, g ∈ map fst gs /\ open_w (fsys s) g = Ok loc
       /\ file_at (fst (write_files gs s)) loc
          = Some (Text (render_file g (map (heap s) (assoc_refs g gs)))).
Proof.
  revert s. induction gs as [|[f0 rs] gs IH]; intros s Hnd Hok.
  - left. split; [reflexivity|]. intros g Hg. apply elem_of_nil in Hg. contradiction.
  - rewrite write_files_cons_eq in *. simpl in Hnd. apply NoDup_cons in Hnd as [Hf0 Hnd].
    destruct (open_w (fsys s) f0) as [loc0|e] eqn:Eo; [|discriminate Hok].
    set (s1 := fs_write loc0 (render_file f0 (map (heap s) rs)) s) in *.
    destruct (fs_write_fields loc0 (render_file f0 (map (heap s) rs)) s) as (H1 & _).
    fold s1 in H1.
    destruct (IH s1 Hnd Hok) as [(Hf & Hg)|(g & Hg & Ho & Hf)].
    + rewrite Hf. unfold s1. rewrite file_at_fs_write.
      destruct (decide (loc0 = loc)) as [<-|Hne].
      * rewrite bool_decide_eq_true_2 by reflexivity. right. exists f0.
        split; [left|split; [exact Eo|]]. simpl. rewrite str_eqb_refl. reflexivity.
      * rewrite bool_decide_eq_false_2 by exact Hne. left. split; [reflexivity|].
        intros g Hgin. simpl in Hgin. apply elem_of_cons in Hgin as [->|Hgin]; [congruence|].
        rewrite <- (open_w_fs_write loc0 (render_file f0 (map (heap s) rs))). exact (Hg g Hgin).
    + right. exists g. unfold s1 in Ho. rewrite open_w_fs_write in Ho.
      split; [right; exact Hg|split; [exact Ho|]]. rewrite Hf, H1. simpl.
      rewrite (proj2 (str_eqb_false f0 g)); [reflexivity|]. intros ->. contradiction.
Qed.

(** After a successful [save_todos], every file that an item's target name
    opens holds the rendering of one whole group: the items whose target
    name is some name that opens this file, when the headers are in the
    model's characters. Two names of one file ([a.md], [./a.md]) leave
    only one of their groups. *)
Theorem save_one_group_per_file (s : TodoList) (r : ref) (loc : path * str) :
  snd (save_todos s) = Ok tt ->
  (forall r', r' ∈ todos s -> header_in_model (target_file s r') = true) ->
  r ∈ todos s -> open_w (fsys s) (target_file s r) = Ok loc ->
  exists r', r' ∈ todos s /\ open_w (fsys s) (target_file s r') = Ok loc
    /\ file_at (fst (save_todos s)) loc
       = Some (Text (render_file (target_file s r')
           (map (heap s) (filter (fun r'' => target_file s r'' = target_file s r') (todos s))))).
Proof.
  intros Hok _ Hr Ho.
  destruct (save_todos_decompose s) as (F & gs & Heq & _ & _ & Has & Hnd & Hk).
  rewrite Heq in *.
  destruct (write_files_last gs (set_todo_files F s) loc Hnd Hok) as [(_ & Hg)|(g & Hg & Og & Hf)].
  - exfalso. apply (Hg (target_file s r)); [apply Hk; eauto|exact Ho].
  - apply Hk in Hg as (r' & Hr' & <-). exists r'. rewrite Hf, Has. auto.
Qed.

Lemma load_items_origins (f : str) (l : list TodoItem) (s : TodoList) :
  refs_fresh s ->
  map (fun r => todo_files (fst (load_items f l s)) !! r) (todos (fst (load_items f l s)))
  = map (fun r => todo_files s !! r) (todos s) ++ replicate (length l) (Some f).
Proof.
  revert s. induction l as [|it l IH]; intros s Hs.
  - simpl. rewrite app_nil_r. reflexivity.
  - rewrite load_items_cons, load_item_state. simpl fst.
    set (s1 := mkTodoList _ _ _ _ _ _ _).
    assert (Hs1 : refs_fresh s1).
    { unfold refs_fresh in *. simpl. apply Forall_app. split; [|repeat constructor; lia].
      eapply Forall_impl; [exact Hs|]. simpl. intros; lia. }
    rewrite (IH s1 Hs1). simpl. rewrite map_app. simpl. rewrite lookup_insert_eq.
    rewrite <- app_assoc. f_equal.
    apply map_ext_in. intros r Hr. apply List.Forall_forall with (x := r) in Hs; [|exact Hr].
    rewrite lookup_insert_ne by lia. reflexivity.
Qed.

Lemma load_files_origins (fs : Disk) (s : TodoList) :
  refs_fresh s ->
  map (fun r => todo_files (fst (load_files fs s)) !! r) (todos (fst (load_files fs s)))
  = map (fun r => todo_files s !! r) (todos s) ++ file_origins fs.
Proof.
  revert s. induction fs as [|[f [c| |]] fs IH]; intros s Hs; simpl.
  - rewrite app_nil_r. reflexivity.
  - unfold bind. destruct (load_items_spec f (parse_content c) s Hs) as (Hok & Hf & _).
    pose proof (load_items_origins f (parse_content c) s Hs) as Ho.
    destruct (load_items f (parse_content c) s) as [s1 r1] eqn:E. simpl in *. subst r1.
    rewrite (IH s1 Hf), Ho, app_assoc. reflexivity.
  - rewrite app_nil_r. reflexivity.
  - rewrite app_nil_r. reflexivity.
Qed.

(** After [load_todos], the [todo_files] entries of the loaded items, in
    order, are the names of the files they were read from: one per parsed
    line of each readable [.md] file, up to the first unreadable file. *)
Theorem load_records_origins (s : TodoList) :
  map (fun r => todo_files (fst (load_todos s)) !! r) (todos (fst (load_todos s)))
  = file_origins (glob_md (disk s)).
Proof.
  rewrite load_todos_unfold.
  assert (Hf : refs_fresh (set_todo_files ∅ (set_todos [] s))) by constructor.
  rewrite (load_files_origins _ _ Hf). reflexivity.
Qed.

Lemma save_writes_groups_witness :
  snd (save_todos added_outside) = Ok tt
  /\ file_at (fst (save_todos added_outside)) ([lit "home"; lit "user"; lit "mdtodo"], lit "x.md")
     = Some (Text (render_file (lit "../x.md") [mkItem (lit "buy milk") false (lit "../x")])).
Proof.
  assert (Hok : snd (save_todos added_outside) = Ok tt) by (vm_compute; reflexivity).
  assert (E : todos added_outside = [0]) by (vm_compute; reflexivity).
  assert (Hin : 0 ∈ todos added_outside) by (rewrite E; left).
  assert (Ho : open_w (fsys added_outside) (target_file added_outside 0)
               = Ok ([lit "home"; lit "user"; lit "mdtodo"], lit "x.md")) by (vm_compute; reflexivity).
  split; [exact Hok|].
  rewrite (save_writes_groups added_outside 0 _ Hok Hin Ho).
  - vm_compute. reflexivity.
  - intros r' Hr' _. rewrite E in Hr'.
    apply elem_of_cons in Hr' as [->|Hr']; [reflexivity|apply not_elem_of_nil in Hr'; contradiction].
  - vm_compute. reflexivity.
Defined.

Lemma save_keeps_other_files_witness :
  file_at (fst (save_todos deleted_from_file)) (todo_dir default_fs, lit "a.md")
  = Some (Text (lit "- [ ] t"))
  /\ map (heap (fst (load_todos (fst (save_todos deleted_from_file)))))
         (todos (fst (load_todos (fst (save_todos deleted_from_file)))))
     = [mkItem (lit "t") false uncategorized].
Proof.
  split; [|vm_compute; reflexivity].
  rewrite (save_keeps_other_files deleted_from_file (todo_dir default_fs, lit "a.md")).
  - vm_compute. reflexivity.
  - intros r Hr. assert (E : todos deleted_from_file = []) by (vm_compute; reflexivity).
    rewrite E in Hr. apply not_elem_of_nil in Hr. contradiction.
Defined.

Lemma save_one_group_per_file_witness :
  snd (save_todos alias_store) = Ok tt
  /\ (exists r', r' ∈ todos alias_store
       /\ open_w (fsys alias_store) (target_file alias_store r') = Ok (todo_dir default_fs, lit "a.md")
       /\ file_at (fst (save_todos alias_store)) (todo_dir default_fs, lit "a.md")
          = Some (Text (render_file (target_file alias_store r')
              (map (heap alias_store)
                 (filter (fun r'' => target_file alias_store r'' = target_file alias_store r')
                    (todos alias_store))))))
  /\ map (heap (fst (load_todos (fst (save_todos alias_store)))))
         (todos (fst (load_todos (fst (save_todos alias_store)))))
     = [mkItem (lit "u #./a") false uncategorized].
Proof.
  assert (Hok : snd (save_todos alias_store) = Ok tt) by (vm_compute; reflexivity).
  assert (E : todos alias_store = [0; 1]) by (vm_compute; reflexivity).
  split; [exact Hok|split; [|vm_compute; reflexivity]].
  apply (save_one_group_per_file alias_store 0 _ Hok).
  - intros r Hr. rewrite E in Hr.
    repeat (apply elem_of_cons in Hr as [->|Hr]; [vm_compute; reflexivity|]).
    apply not_elem_of_nil in Hr. contradiction.
  - rewrite E. left.
  - vm_compute. reflexivity.
Defined.

Lemma filter_keep_all (P : ref -> Prop) `{!forall x, Decision (P x)} (l : list ref) :
  (forall y, y ∈ l -> P y) -> filter P l = l.
Proof.
  induction l as [|x l IH]; intros Hall; [reflexivity|].
  rewrite filter_cons_True by (apply Hall; left).
  f_equal. apply IH. intros y Hy. apply Hall. right. exact Hy.
Qed.

Lemma list_remove_nodup (r : ref) (l : list ref) :
  NoDup l -> list_remove r l = filter (fun x => x <> r) l.
Proof.
  induction l as [|x l IH]; intros Hnd; simpl; [reflexivity|].
  apply NoDup_cons in Hnd as [Hx Hnd].
  destruct (Nat.eqb x r) eqn:E.
  - apply Nat.eqb_eq in E. subst x. rewrite filter_cons_False by (intros H; apply H; reflexivity).
    symmetry. apply filter_keep_all. intros y Hy Hyr. subst y. contradiction.
  - apply Nat.eqb_neq in E. rewrite filter_cons_True by exact E. rewrite IH by exact Hnd.
    reflexivity.
Qed.

(** On a duplicate-free item list whose [todo_files] keys are items,
    [delete_todo r] removes [r] from the list (or does nothing when it is
    absent), drops its origin, keeps the other items in order and leaves the
    heap and the categories unchanged. *)
Theorem delete_todo_spec (r : ref) (s : TodoList) :
  NoDup (todos s) -> origin_ok s ->
  let s' := fst (delete_todo r s) in
  snd (delete_todo r s) = Ok tt
  /\ todos s' = filter (fun x => x <> r) (todos s) /\ NoDup (todos s')
  /\ todo_files s' = delete r (todo_files s)
  /\ heap s' = heap s /\ categories s' = categories s.
Proof.
  intros Hnd Ho. unfold delete_todo, bind, get, modify.
  destruct (decide (r ∈ todos s)) as [Hin|Hnin].
  - rewrite (list_remove_nodup r _ Hnd).
    assert (Hnd' : NoDup (filter (fun x => x <> r) (todos s))) by (apply NoDup_filter; exact Hnd).
    simpl. destruct (decide (is_Some (todo_files s !! r))) as [Hs|Hs]; simpl;
      repeat split; auto.
    apply eq_None_not_Some in Hs. symmetry. apply delete_id. exact Hs.
  - simpl. repeat split; auto.
    + symmetry. apply filter_keep_all. intros y Hy ->. contradiction.
    + symmetry. apply delete_id. apply eq_None_not_Some. intros Hs. exact (Hnin (Ho r Hs)).
Qed.

Lemma delete_todo_spec_witness :
  NoDup (todos one_added) /\ origin_ok one_added
  /\ todos (fst (delete_todo 0 one_added)) = filter (fun x => x <> 0) (todos one_added).
Proof.
  assert (Ht : todos one_added = [0]) by (vm_compute; reflexivity).
  assert (Hf : todo_files one_added = ∅) by (vm_compute; reflexivity).
  assert (Hnd : NoDup (todos one_added)) by (rewrite Ht; repeat constructor; set_solver).
  assert (Ho : origin_ok one_added).
  { intros r Hr. rewrite Hf, lookup_empty in Hr. destruct Hr as [? Hc]. discriminate. }
  split; [exact Hnd|split; [exact Ho|]].
  exact (proj1 (proj2 (delete_todo_spec 0 one_added Hnd Ho))).
Defined.

Lemma or_uncategorized_idem (c : str) : or_uncategorized (or_uncategorized c) = or_uncategorized c.
Proof. destruct c; reflexivity. Qed.

Lemma add_todo_fresh (t c : str) (s : TodoList) :
  refs_fresh s ->
  let s' := fst (add_todo t c s) in
  snd (add_todo t c s) = Ok (next_ref s) /\ (next_ref s ∉ todos s)
  /\ todos s' = todos s ++ [next_ref s]
  /\ map (heap s') (todos s') = map (heap s) (todos s) ++ [mkItem t false (or_uncategorized c)]
  /\ categories s' = {[or_uncategorized c]} ∪ categories s
  /\ todo_files s' = todo_files s /\ refs_fresh s'.
Proof.
  intros Hs. rewrite add_todo_state. simpl.
  assert (Hn : next_ref s ∉ todos s).
  { intros Hin. unfold refs_fresh in Hs. rewrite Forall_forall in Hs. specialize (Hs _ Hin). lia. }
  repeat split; auto.
  - rewrite map_app. simpl. rewrite map_heap_update_fresh by exact Hs.
    unfold heap_update. rewrite Nat.eqb_refl. unfold new_TodoItem.
    rewrite or_uncategorized_idem. reflexivity.
  - unfold refs_fresh in *. simpl. apply Forall_app. split; [|repeat constructor; lia].
    eapply Forall_impl; [exact Hs|]. simpl. intros; lia.
Qed.

(** On a store whose item references are below [next_ref], [add_todo t c]
    appends a new item at a fresh reference with text [t], not done and
    category [c or 'uncategorized'], adds that category and records no
    origin. *)
Theorem add_todo_appends (t c : str) (s : TodoList) :
  refs_fresh s ->
  let s' := fst (add_todo t c s) in
  snd (add_todo t c s) = Ok (next_ref s) /\ (next_ref s ∉ todos s)
  /\ todos s' = todos s ++ [next_ref s]
  /\ map (heap s') (todos s') = map (heap s) (todos s) ++ [mkItem t false (or_uncategorized c)]
  /\ categories s' = {[or_uncategorized c]} ∪ categories s
  /\ todo_files s' = todo_files s /\ refs_fresh s'.
Proof. exact (add_todo_fresh t c s). Qed.

Lemma add_todo_appends_witness :
  refs_fresh (fst (new_TodoList [(lit "a.md", Text (lit "- [ ] t"))]))
  /\ map (heap (fst (add_todo (lit "u") [] (fst (new_TodoList [(lit "a.md", Text (lit "- [ ] t"))])))))
         (todos (fst (add_todo (lit "u") [] (fst (new_TodoList [(lit "a.md", Text (lit "- [ ] t"))])))))
     = map (heap (fst (new_TodoList [(lit "a.md", Text (lit "- [ ] t"))])))
         (todos (fst (new_TodoList [(lit "a.md", Text (lit "- [ ] t"))])))
       ++ [mkItem (lit "u") false uncategorized].
Proof.
  assert (Hs : refs_fresh (fst (new_TodoList [(lit "a.md", Text (lit "- [ ] t"))]))).
  { unfold refs_fresh. vm_compute. repeat constructor. }
  split; [exact Hs|].
  exact (proj1 (proj2 (proj2 (proj2 (add_todo_appends (lit "u") [] _ Hs))))).
Defined.

Lemma cats_cover_load_item (f : str) (it : TodoItem) : preserves cats_cover (load_item f it).
Proof.
  intros s Hs. rewrite load_item_state. intros r Hr. simpl in *.
  unfold heap_update. destruct (Nat.eqb r (next_ref s)) eqn:E; [set_solver|].
  apply elem_of_app in Hr as [Hr|Hr].
  - apply elem_of_union_r. exact (Hs r Hr).
  - apply list_elem_of_singleton in Hr. subst r. rewrite Nat.eqb_refl in E. discriminate.
Qed.

Lemma delete_todo_heap_eq (r : ref) (s : TodoList) : heap (fst (delete_todo r s)) = heap s.
Proof.
  unfold delete_todo, bind, get, modify.
  destruct (decide (r ∈ todos s)); [|reflexivity].
  simpl. destruct (decide (is_Some _)); reflexivity.
Qed.

Lemma save_todos_fields (s : TodoList) :
  let s' := fst (save_todos s) in
  heap s' = heap s /\ todos s' = todos s /\ categories s' = categories s.
Proof.
  destruct (save_todos_decompose s) as (F & gs & -> & _).
  destruct (write_files_fields gs (set_todo_files F s)) as (Hh & Ht & _ & Hc & _).
  simpl in *. rewrite Hh, Ht, Hc. auto.
Qed.

Lemma cats_cover_load_todos : preserves cats_cover load_todos.
Proof.
  apply load_todos_preserves; [|exact cats_cover_load_item].
  intros s _ r Hr. simpl in Hr. apply elem_of_nil in Hr. contradiction.
Qed.

Lemma cats_cover_new_TodoList (d : Disk) : cats_cover (fst (new_TodoList d)).
Proof. apply cats_cover_load_todos. intros r Hr. simpl in Hr. apply elem_of_nil in Hr. contradiction. Qed.

(** Every listed item's category is in [categories] after construction, and
    [load_todos], [save_todos], [add_todo], [delete_todo] and a toggle keep
    it so. *)
Theorem cats_cover_kept (d : Disk) :
  cats_cover (fst (new_TodoList d))
  /\ preserves cats_cover load_todos
  /\ preserves cats_cover save_todos
  /\ (forall t c, preserves cats_cover (add_todo t c))
  /\ (forall r, preserves cats_cover (delete_todo r))
  /\ (forall s r, cats_cover s -> cats_cover (toggled s r)).
Proof.
  split; [|split; [exact cats_cover_load_todos|split; [|split; [|split]]]].
  - apply cats_cover_new_TodoList.
  - intros s Hs r Hr. destruct (save_todos_fields s) as (Hh & Ht & Hc).
    rewrite Hh, Hc. rewrite Ht in Hr. exact (Hs r Hr).
  - intros t c s Hs r Hr. rewrite add_todo_state in *. simpl in *.
    unfold heap_update. destruct (Nat.eqb r (next_ref s)) eqn:E.
    { unfold new_TodoItem. simpl. rewrite or_uncategorized_idem. set_solver. }
    apply elem_of_app in Hr as [Hr|Hr].
    + apply elem_of_union_r. exact (Hs r Hr).
    + apply list_elem_of_singleton in Hr. subst r. rewrite Nat.eqb_refl in E. discriminate.
  - intros x s Hs r Hr. destruct (delete_todo_fields x s) as (_ & Hc & [(Hin & Ht & _)|Heq]).
    + rewrite delete_todo_heap_eq, Hc. rewrite Ht in Hr.
      apply Hs. clear -Hr. induction (todos s) as [|y l IH]; simpl in *; [exact Hr|].
      destruct (Nat.eqb y x); [right; exact Hr|].
      apply elem_of_cons in Hr as [->|Hr]; [left|right; apply IH; exact Hr].
    + rewrite Heq in *. exact (Hs r Hr).
  - intros s x Hs r Hr. unfold toggled, heap_update in *. simpl in *.
    destruct (Nat.eqb r x) eqn:E; [|exact (Hs r Hr)].
    apply Nat.eqb_eq in E. subst r. exact (Hs x Hr).
Qed.

Lemma str_le_total : Total str_le.
Proof.
  intros a. unfold str_le. induction a as [|x a IH]; intros [|y b]; simpl; auto.
  destruct (nat_of_ascii x <? nat_of_ascii y) eqn:E1; [auto|].
  destruct (nat_of_ascii y <? nat_of_ascii x) eqn:E2; [auto|].
  destruct (ascii_dec x y) as [->|Hne].
  - destruct (ascii_dec y y) as [_|]; [apply IH|contradiction].
  - exfalso. apply Nat.ltb_ge in E1, E2. apply Hne.
    rewrite <- (ascii_nat_embedding x), <- (ascii_nat_embedding y). f_equal. lia.
Qed.

Lemma Sorted_nodup_strict {A} (R : relation A) (l : list A) :
  Sorted R l -> NoDup l -> Sorted (fun a b => R a b /\ a <> b) l.
Proof.
  induction 1 as [|x l Hl IH Hd]; intros Hnd; constructor.
  - apply IH. apply NoDup_cons in Hnd as [_ Hnd]. exact Hnd.
  - destruct Hd as [|y l' Hxy]; constructor. split; [exact Hxy|].
    intros ->. apply NoDup_cons in Hnd as [Hn _]. apply Hn. left.
Qed.

Lemma get_categories_sorted_aux (s : TodoList) :
  Sorted (fun a b => str_le a b /\ a <> b) (get_categories s)
  /\ NoDup (get_categories s)
  /\ forall c, c ∈ get_categories s <-> c ∈ categories s.
Proof.
  assert (Hnd : NoDup (get_categories s)).
  { unfold get_categories. rewrite (merge_sort_Permutation str_le (elements (categories s))).
    apply NoDup_elements. }
  split; [|split; [exact Hnd|intros c; unfold get_categories;
    rewrite (merge_sort_Permutation str_le (elements (categories s))); apply elem_of_elements]].
  apply Sorted_nodup_strict; [|exact Hnd].
  unfold get_categories. apply Sorted_merge_sort. exact str_le_total.
Qed.

(** [get_categories] lists each category once, in strictly increasing
    code-point order. *)
Theorem get_categories_sorted (s : TodoList) :
  Sorted (fun a b => str_le a b /\ a <> b) (get_categories s)
  /\ NoDup (get_categories s)
  /\ forall c, c ∈ get_categories s <-> c ∈ categories s.
Proof. exact (get_categories_sorted_aux s). Qed.

Lemma keeps_list_ret {A} (x : A) : keeps_list (ret x).
Proof. intros a. reflexivity. Qed.

Lemma keeps_list_raise {A} (e : exn) : keeps_list (@raise _ A e).
Proof. intros a. reflexivity. Qed.

Lemma keeps_list_modify (f : TodoApp -> TodoApp) :
  (forall a, todo_list (f a) = todo_list a) -> keeps_list (modify f).
Proof. intros H a. exact (H a). Qed.

Lemma keeps_list_bind {A B} (m : M TodoApp A) (k : A -> M TodoApp B) :
  keeps_list m -> (forall x, keeps_list (k x)) -> keeps_list (bind m k).
Proof.
  intros Hm Hk a. unfold bind. specialize (Hm a).
  destruct (m a) as [a' [x|e]]; simpl in *; [rewrite Hk|]; exact Hm.
Qed.

Lemma keeps_list_get {B} (k : TodoApp -> M TodoApp B) :
  (forall a0, keeps_list (k a0)) -> keeps_list (bind get k).
Proof. intros H a. exact (H a a). Qed.

Lemma keeps_list_pure {A} (m : M TodoApp A) : pure m -> keeps_list m.
Proof. intros H a. rewrite H. reflexivity. Qed.

Create HintDb keeps.
#[local] Hint Resolve keeps_list_ret keeps_list_raise keeps_list_bind keeps_list_get : keeps.
#[local] Hint Extern 1 (keeps_list (modify _)) => apply keeps_list_modify; intros; reflexivity : keeps.
#[local] Hint Extern 1 (keeps_list (index_or_raise _ _)) =>
  apply keeps_list_pure, index_or_raise_pure : keeps.

Lemma uct_keeps : keeps_list update_category_tabs.
Proof. unfold update_category_tabs. apply keeps_list_get. intros a0. destruct (_ <=? _)%Z; eauto with keeps. Qed.

Lemma utl_keeps : keeps_list update_todo_list.
Proof.
  unfold update_todo_list. apply keeps_list_get. intros a0.
  destruct (get_categories _); [eauto with keeps|].
  apply keeps_list_bind; [eauto with keeps|intros x]. destruct (_ <=? _)%Z; eauto with keeps.
Qed.

Lemma footer_keeps (t : str) : keeps_list (set_footer_text t).
Proof. unfold set_footer_text. eauto with keeps. Qed.

#[local] Hint Resolve uct_keeps utl_keeps footer_keeps : keeps.

(** The part of [edit_on_save] after the store update. *)
Lemma edit_on_save_unfold (r : ref) (t c : str) (a : TodoApp) :
  exists k, edit_on_save r t c a
    = k (set_todo_list (fst (edit_todo r (strip t) (or_uncategorized (strip c)) (todo_list a))) a)
    /\ keeps_list k.
Proof.
  eexists. split; [reflexivity|].
  apply keeps_list_get. intros a0. cbv zeta.
  apply keeps_list_bind; [case_bool_decide; eauto with keeps|intros _]. eauto 10 with keeps.
Qed.

(** Saving the edit dialog with a category that is not yet known sets the
    item's text and category, keeps its done flag, but adds nothing to
    [categories]: the item is then in no category tab. *)
Theorem edit_to_new_category_hides (r : ref) (t c : str) (a : TodoApp) :
  or_uncategorized (strip c) ∉ categories (todo_list a) ->
  let s' := todo_list (fst (edit_on_save r t c a)) in
  heap s' r = mkItem (strip t) (done (heap (todo_list a) r)) (or_uncategorized (strip c))
  /\ categories s' = categories (todo_list a) /\ todos s' = todos (todo_list a)
  /\ forall cur, cur ∈ get_categories s' -> r ∉ get_todos_by_category s' cur.
Proof.
  intros Hc. destruct (edit_on_save_unfold r t c a) as (k & -> & Hk). simpl.
  rewrite Hk. simpl. unfold heap_update at 1. rewrite Nat.eqb_refl.
  split; [reflexivity|split; [reflexivity|split; [reflexivity|]]].
  intros cur Hcur Hr. rewrite Hk in Hcur, Hr. unfold get_todos_by_category in Hr. simpl in Hr.
  apply list_elem_of_filter in Hr as [Hr _]. simpl in Hr.
  unfold heap_update in Hr. rewrite Nat.eqb_refl in Hr. simpl in Hr. subst cur.
  apply get_categories_elem in Hcur. exact (Hc Hcur).
Qed.

Lemma edit_to_new_category_hides_witness :
  (or_uncategorized (strip (lit "work")) ∉ categories (todo_list sample_app))
  /\ get_categories (todo_list (fst (edit_on_save 0 (lit "t") (lit "work") sample_app)))
     = [uncategorized].
Proof.
  assert (H : or_uncategorized (strip (lit "work")) ∉ categories (todo_list sample_app)).
  { assert (E : categories (todo_list sample_app) = {[uncategorized]}) by (vm_compute; reflexivity).
    rewrite E. vm_compute. set_solver. }
  split; [exact H|].
  destruct (edit_to_new_category_hides 0 (lit "t") (lit "work") sample_app H) as (_ & Hc & _).
  rewrite (get_categories_same _ _ Hc). vm_compute. reflexivity.
Defined.

Lemma py_index_list_index (x : str) (l : list str) :
  x ∈ l -> py_index l (list_index x l) = Some x.
Proof.
  intros Hx.
  assert (H : (list_index x l < Z.of_nat (length l))%Z
              /\ nth_error l (Z.to_nat (list_index x l)) = Some x).
  { induction l as [|y l IH]; [apply elem_of_nil in Hx; contradiction|].
    simpl. destruct (str_eqb x y) eqn:E.
    - apply str_eqb_spec in E. subst y. split; [lia|reflexivity].
    - apply str_eqb_false in E. apply elem_of_cons in Hx as [->|Hx]; [congruence|].
      destruct (IH Hx) as [Hl Hn]. pose proof (list_index_nonneg x l).
      split; [lia|]. rewrite Z2Nat.inj_add by lia. simpl. exact Hn. }
  destruct H as [Hl Hn]. pose proof (list_index_nonneg x l).
  unfold py_index. replace ((0 <=? list_index x l)%Z && (list_index x l <? Z.of_nat (length l))%Z)
    with true by (symmetry; apply andb_true_intro; split; [apply Z.leb_le|apply Z.ltb_lt]; lia).
  exact Hn.
Qed.

(** Saving the add dialog with a non-blank task appends the stripped task,
    not done, under the stripped category (or 'uncategorized'), adds the
    category, switches to its tab and closes the dialog, without raising. *)
Theorem add_on_save_appends (t c : str) (a : TodoApp) :
  refs_fresh (todo_list a) -> strip t <> [] ->
  let a' := fst (add_on_save t c a) in
  snd (add_on_save t c a) = Ok tt
  /\ map (heap (todo_list a')) (todos (todo_list a'))
     = map (heap (todo_list a)) (todos (todo_list a))
       ++ [mkItem (strip t) false (or_uncategorized (strip c))]
  /\ categories (todo_list a') = {[or_uncategorized (strip c)]} ∪ categories (todo_list a)
  /\ py_index (get_categories (todo_list a')) (current_category_idx a')
     = Some (or_uncategorized (strip c))
  /\ widget a' = Layout.
Proof.
  intros Hs Ht. set (cat := or_uncategorized (strip c)).
  set (s1 := fst (add_todo (strip t) cat (todo_list a))).
  assert (Hcat : cat ∈ get_categories s1).
  { apply get_categories_elem. unfold s1. rewrite add_todo_state. simpl.
    unfold cat. rewrite or_uncategorized_idem. set_solver. }
  set (a2 := set_category_idx (list_index cat (get_categories s1)) (set_todo_list s1 a)).
  assert (Hpy : py_index (get_categories (todo_list a2)) (current_category_idx a2) = Some cat)
    by (apply py_index_list_index; exact Hcat).
  assert (Huct : update_category_tabs a2 = (a2, Ok tt)).
  { rewrite uct_spec. destruct (_ <=? _)%Z eqn:E; [|reflexivity].
    apply Z.leb_le in E. pose proof (py_index_nonneg _ _ _ (list_index_nonneg cat _) Hpy).
    simpl in *. lia. }
  assert (E : add_on_save t c a =
    (set_widget Layout (set_footer (lit " " ++ (lit "Added: " ++ strip t) ++ lit " ")
      (fst (update_todo_list a2))), Ok tt)).
  { unfold add_on_save. fold cat. destruct (strip t) as [|ch rest] eqn:Et; [contradiction|].
    assert (Hadd : add_todo (ch :: rest) cat (todo_list a) = (s1, Ok (next_ref (todo_list a))))
      by (unfold s1; rewrite add_todo_state; reflexivity).
    cbv [bind on_list get modify ret]. rewrite Hadd. cbv beta iota.
    change (todo_list (set_todo_list s1 a)) with s1.
    rewrite (bool_decide_eq_true_2 _ Hcat). fold a2. rewrite Huct.
    rewrite (utl_spec a2 cat Hpy). destruct (_ <=? _)%Z; reflexivity. }
  rewrite E. simpl fst. simpl snd.
  assert (Hl : todo_list (fst (update_todo_list a2)) = s1
    /\ current_category_idx (fst (update_todo_list a2)) = current_category_idx a2).
  { rewrite (utl_spec a2 cat Hpy). destruct (_ <=? _)%Z; split; reflexivity. }
  destruct Hl as [Hl Hi]. simpl. rewrite Hl, Hi.
  destruct (add_todo_fresh (strip t) cat (todo_list a) Hs) as (_ & _ & _ & Hmap & Hc & _).
  fold s1 in Hmap, Hc. unfold cat in *. rewrite or_uncategorized_idem in Hmap, Hc.
  split; [reflexivity|split; [exact Hmap|split; [exact Hc|split; [exact Hpy|reflexivity]]]].
Qed.

Lemma add_on_save_appends_witness :
  refs_fresh (todo_list sample_app) /\ strip (lit "  buy milk ") <> []
  /\ py_index (get_categories (todo_list (fst (add_on_save (lit "  buy milk ") (lit "home") sample_app))))
       (current_category_idx (fst (add_on_save (lit "  buy milk ") (lit "home") sample_app)))
     = Some (lit "home").
Proof.
  assert (Hs : refs_fresh (todo_list sample_app)) by (unfold refs_fresh; vm_compute; repeat constructor).
  assert (Ht : strip (lit "  buy milk ") <> []) by (vm_compute; discriminate).
  split; [exact Hs|split; [exact Ht|]].
  exact (proj1 (proj2 (proj2 (proj2 (add_on_save_appends _ (lit "home") _ Hs Ht))))).
Defined.

Lemma find_first {A} (p : A -> bool) (l : list A) (x : A) :
  find p l = Some x <->
  exists pre post, l = pre ++ x :: post /\ p x = true /\ Forall (fun y => p y = false) pre.
Proof.
  split.
  - induction l as [|y l IH]; simpl; [discriminate|].
    destruct (p y) eqn:E.
    + intros H. injection H as <-. exists [], l. auto.
    + intros H. destruct (IH H) as (pre & post & -> & Hx & Hpre).
      exists (y :: pre), post. auto.
  - intros (pre & post & -> & Hx & Hpre). induction Hpre as [|y pre Hy _ IH]; simpl.
    + rewrite Hx. reflexivity.
    + rewrite Hy. exact IH.
Qed.

(** A key bound to no action leaves the application unchanged. *)
Theorem unbound_key_ignored (k : str) (a : TodoApp) :
  (forall act, keymap a act <> k) -> handle_input k a = (a, Ok tt).
Proof.
  intros H. unfold handle_input, bind, get.
  destruct (action_of (keymap a) k) as [act|] eqn:E; [|reflexivity].
  unfold action_of in E. apply find_some in E as [_ E].
  apply str_eqb_spec in E. exfalso. exact (H act (eq_sym E)).
Qed.

Lemma unbound_key_ignored_witness :
  (forall act, keymap sample_app act <> lit "x")
  /\ handle_input (lit "x") sample_app = (sample_app, Ok tt).
Proof.
  assert (H : forall act, keymap sample_app act <> lit "x").
  { intros act. destruct act; vm_compute; intros E; discriminate E. }
  split; [exact H|exact (unbound_key_ignored _ _ H)].
Defined.

Lemma current_todos_spec (a : TodoApp) (cur : str) :
  py_index (get_categories (todo_list a)) (current_category_idx a) = Some cur ->
  current_todos a = (a, Ok (get_todos_by_category (todo_list a) cur)).
Proof. intros H. unfold current_todos, bind, get, index_or_raise. rewrite H. reflexivity. Qed.

Lemma match_nonempty {A B} (l : list A) (x y : B) :
  l <> [] -> match l with [] => x | _ => y end = y.
Proof. destruct l; [contradiction|reflexivity]. Qed.

Lemma set_selected_idx_same (a : TodoApp) : set_selected_idx (selected_idx a) a = a.
Proof. destruct a; reflexivity. Qed.

(** Under the UI invariant, [move_down] sets the selection to
    [min(sel + 1, max(0, n - 1))] for the [n] items of the tab and
    [move_up] to [max(0, sel - 1)], changing nothing else and not raising. *)
Theorem move_selection (a : TodoApp) (cur : str) :
  app_inv a ->
  py_index (get_categories (todo_list a)) (current_category_idx a) = Some cur ->
  handle_action MoveDown a
    = (set_selected_idx (Z.min (selected_idx a + 1) (Z.max 0 (count_shown a cur - 1))) a, Ok tt)
  /\ handle_action MoveUp a = (set_selected_idx (Z.max 0 (selected_idx a - 1)) a, Ok tt).
Proof.
  intros (_ & _ & Hs & Hsel) Hcur. specialize (Hsel cur Hcur). split.
  - simpl handle_action. unfold bind at 1, get.
    assert (Hne : get_categories (todo_list a) <> [])
      by (intros E; rewrite E, py_index_nil in Hcur; discriminate).
    rewrite (match_nonempty _ _ _ Hne). unfold bind at 1. rewrite (current_todos_spec a cur Hcur).
    fold (count_shown a cur).
    destruct (selected_idx a <? count_shown a cur - 1)%Z eqn:E.
    + apply Z.ltb_lt in E. unfold bind, modify.
      assert (Hc' : py_index (get_categories (todo_list (set_selected_idx (selected_idx a + 1) a)))
                      (current_category_idx (set_selected_idx (selected_idx a + 1) a)) = Some cur)
        by exact Hcur.
      rewrite (utl_spec _ cur Hc').
      change (count_shown (set_selected_idx (selected_idx a + 1) a) cur) with (count_shown a cur).
      change (selected_idx (set_selected_idx (selected_idx a + 1) a)) with (selected_idx a + 1)%Z.
      destruct (count_shown a cur <=? selected_idx a + 1)%Z eqn:E2; [apply Z.leb_le in E2; lia|].
      f_equal. f_equal. lia.
    + apply Z.ltb_ge in E. unfold ret. f_equal.
      replace (Z.min (selected_idx a + 1) (Z.max 0 (count_shown a cur - 1))) with (selected_idx a)
        by lia.
      symmetry. apply set_selected_idx_same.
  - simpl handle_action. unfold bind at 1, get.
    destruct (0 <? selected_idx a)%Z eqn:E.
    + apply Z.ltb_lt in E. unfold bind, modify.
      assert (Hc' : py_index (get_categories (todo_list (set_selected_idx (selected_idx a - 1) a)))
                      (current_category_idx (set_selected_idx (selected_idx a - 1) a)) = Some cur)
        by exact Hcur.
      rewrite (utl_spec _ cur Hc').
      change (count_shown (set_selected_idx (selected_idx a - 1) a) cur) with (count_shown a cur).
      change (selected_idx (set_selected_idx (selected_idx a - 1) a)) with (selected_idx a - 1)%Z.
      destruct (count_shown a cur <=? selected_idx a - 1)%Z eqn:E2; [apply Z.leb_le in E2; lia|].
      f_equal. f_equal. lia.
    + apply Z.ltb_ge in E. unfold ret. f_equal.
      replace (Z.max 0 (selected_idx a - 1)) with (selected_idx a) by lia.
      symmetry. apply set_selected_idx_same.
Qed.

Lemma move_selection_witness :
  app_inv fourth_selected
  /\ py_index (get_categories (todo_list fourth_selected)) (current_category_idx fourth_selected)
     = Some (lit "a")
  /\ handle_action MoveDown fourth_selected
     = (set_selected_idx (Z.min (selected_idx fourth_selected + 1)
          (Z.max 0 (count_shown fourth_selected (lit "a") - 1))) fourth_selected, Ok tt).
Proof.
  assert (Hp : py_index (get_categories (todo_list fourth_selected)) (current_category_idx fourth_selected)
     = Some (lit "a")) by (vm_compute; reflexivity).
  assert (Hi : app_inv fourth_selected).
  { unfold app_inv. split; [|split; [|split]].
    - apply (bool_decide_unpack _). vm_compute. reflexivity.
    - vm_compute. split; [discriminate|reflexivity].
    - vm_compute. discriminate.
    - intros cur Hcur. rewrite Hp in Hcur. injection Hcur as <-. left. vm_compute. reflexivity. }
  split; [exact Hi|split; [exact Hp|]].
  exact (proj1 (move_selection fourth_selected (lit "a") Hi Hp)).
Defined.

Lemma open_on_selected_spec (W : ref -> Widget) (a : TodoApp) :
  fst (open_on_selected W a) = a
  \/ exists cur r, py_index (get_categories (todo_list a)) (current_category_idx a) = Some cur
       /\ py_index (get_todos_by_category (todo_list a) cur) (selected_idx a) = Some r
       /\ fst (open_on_selected W a) = set_widget (W r) a.
Proof.
  unfold open_on_selected, bind, get.
  destruct (bool_decide (get_categories (todo_list a) = [])) eqn:Eg.
  - apply bool_decide_eq_true in Eg. rewrite Eg. left. reflexivity.
  - apply bool_decide_eq_false in Eg. rewrite !(match_nonempty _ _ _ Eg).
    destruct (py_index (get_categories (todo_list a)) (current_category_idx a)) as [cur|] eqn:Ec.
    + rewrite !(current_todos_spec a cur Ec). cbv beta iota.
      destruct (valid_selection _ _); [|left; reflexivity].
      unfold index_or_raise.
      destruct (py_index (get_todos_by_category (todo_list a) cur) (selected_idx a)) as [r|] eqn:Er.
      * right. exists cur, r. split; [reflexivity|split; [exact Er|reflexivity]].
      * left. reflexivity.
    + left. unfold current_todos, bind, get, index_or_raise. rewrite Ec. reflexivity.
Qed.

(** The add, edit and delete keys change only the dialog on top: edit and
    delete open on the selected item of the current tab, or do nothing. The
    help key raises [NameError] (the [Filler] of [show_help_dialog] has no
    [key_press] signal) before it changes anything. *)
Theorem dialog_keys_only_open (a : TodoApp) :
  (fst (handle_action Add a) = a
   \/ exists cur, py_index (get_categories (todo_list a)) (current_category_idx a) = Some cur
        /\ fst (handle_action Add a) = set_widget (AddDialog cur) a)
  /\ (fst (handle_action Edit a) = a
      \/ exists cur r, py_index (get_categories (todo_list a)) (current_category_idx a) = Some cur
           /\ py_index (get_todos_by_category (todo_list a) cur) (selected_idx a) = Some r
           /\ fst (handle_action Edit a) = set_widget (EditDialog r) a)
  /\ (fst (handle_action Delete a) = a
      \/ exists cur r, py_index (get_categories (todo_list a)) (current_category_idx a) = Some cur
           /\ py_index (get_todos_by_category (todo_list a) cur) (selected_idx a) = Some r
           /\ fst (handle_action Delete a) = set_widget (DeleteDialog r) a)
  /\ handle_action Help a = (a, Raise NameError).
Proof.
  split; [|split; [exact (open_on_selected_spec EditDialog a)
                  |split; [exact (open_on_selected_spec DeleteDialog a)|reflexivity]]].
  simpl handle_action. unfold bind at 1, get, bind, index_or_raise.
  destruct (py_index _ _) as [cur|] eqn:Ec; [right; eauto|left; reflexivity].
Qed.

(** Confirming the delete dialog opened on [r] runs [delete_todo r] on the
    store, keeps the tab and closes the dialog, without raising. *)
Theorem delete_yes_deletes (r : ref) (a : TodoApp) :
  app_inv a -> widget a = DeleteDialog r ->
  snd (step DeleteYes a) = Ok tt
  /\ todo_list (fst (step DeleteYes a)) = fst (delete_todo r (todo_list a))
  /\ current_category_idx (fst (step DeleteYes a)) = current_category_idx a
  /\ widget (fst (step DeleteYes a)) = Layout.
Proof.
  intros (_ & Hi & _) Hw.
  destruct (py_index_in_range _ _ Hi) as [cur Hcur].
  set (a1 := set_todo_list (fst (delete_todo r (todo_list a))) a).
  assert (Hc1 : py_index (get_categories (todo_list a1)) (current_category_idx a1) = Some cur).
  { unfold a1. simpl. destruct (delete_todo_fields r (todo_list a)) as (_ & Hc & _).
    rewrite (get_categories_same _ _ Hc). exact Hcur. }
  assert (E : step DeleteYes a =
    (set_widget Layout (set_footer (lit " " ++ lit "Deleted todo" ++ lit " ")
       (fst (update_todo_list a1))), Ok tt)).
  { unfold step, bind at 1, get. rewrite Hw. unfold delete_on_yes, bind at 1, on_list.
    destruct (delete_todo_fields r (todo_list a)) as (Hok & _).
    destruct (delete_todo r (todo_list a)) as [s1 res] eqn:Ed. simpl in Hok. subst res.
    change (set_todo_list s1 a) with a1. unfold bind at 1.
    rewrite (utl_spec a1 cur Hc1). destruct (_ <=? _)%Z; reflexivity. }
  rewrite E. simpl. rewrite (utl_spec a1 cur Hc1).
  destruct (_ <=? _)%Z; repeat split; reflexivity.
Qed.

Lemma delete_yes_deletes_witness :
  app_inv delete_asked /\ widget delete_asked = DeleteDialog 0
  /\ todos (todo_list (fst (step DeleteYes delete_asked))) = [].
Proof.
  assert (Hw : widget delete_asked = DeleteDialog 0) by (vm_compute; reflexivity).
  assert (Hi : app_inv delete_asked).
  { unfold app_inv. split; [|split; [|split]].
    - apply (bool_decide_unpack _). vm_compute. reflexivity.
    - vm_compute. split; [discriminate|reflexivity].
    - vm_compute. discriminate.
    - intros cur Hcur.
      assert (Hp : py_index (get_categories (todo_list delete_asked)) (current_category_idx delete_asked)
        = Some uncategorized) by (vm_compute; reflexivity).
      rewrite Hp in Hcur. injection Hcur as <-. left. vm_compute. reflexivity. }
  split; [exact Hi|split; [exact Hw|]].
  rewrite (proj1 (proj2 (delete_yes_deletes 0 delete_asked Hi Hw))). vm_compute. reflexivity.
Defined.

Lemma enumerate_mark_length {A B} (f : bool -> A -> B) (i sel : Z) (l : list A) :
  length (enumerate_mark f i sel l) = length l.
Proof. revert i. induction l as [|x l IH]; intros i; simpl; [reflexivity|]. rewrite IH. reflexivity. Qed.

Lemma enumerate_mark_filter {A B} (f : bool -> A -> B) (p : B -> bool) (i sel : Z) (l : list A) :
  (forall x, p (f true x) = true) -> (forall x, p (f false x) = false) ->
  List.filter p (enumerate_mark f i sel l)
  = if (i <=? sel)%Z then
      match nth_error l (Z.to_nat (sel - i)) with Some x => [f true x] | None => [] end
    else [].
Proof.
  intros Ht Hf. revert i. induction l as [|x l IH]; intros i; simpl.
  - destruct (i <=? sel)%Z; [destruct (Z.to_nat (sel - i)); reflexivity|reflexivity].
  - rewrite IH. destruct (Z.eqb i sel) eqn:E.
    + apply Z.eqb_eq in E. subst sel. rewrite Ht, Z.leb_refl, Z.sub_diag. simpl.
      replace (i + 1 <=? i)%Z with false by (symmetry; apply Z.leb_gt; lia). reflexivity.
    + apply Z.eqb_neq in E. rewrite Hf.
      destruct (Z.le_gt_cases i sel) as [Hle|Hgt].
      * replace (i <=? sel)%Z with true by (symmetry; apply Z.leb_le; lia).
        replace (i + 1 <=? sel)%Z with true by (symmetry; apply Z.leb_le; lia).
        replace (Z.to_nat (sel - i)) with (S (Z.to_nat (sel - (i + 1)))) by lia. reflexivity.
      * replace (i <=? sel)%Z with false by (symmetry; apply Z.leb_gt; lia).
        replace (i + 1 <=? sel)%Z with false by (symmetry; apply Z.leb_gt; lia). reflexivity.
Qed.

Lemma tabs_text (z idx : Z) (cs : list str) :
  map snd (enumerate_mark tab_of z idx cs) = map (fun c => lit " " ++ c ++ lit " ") cs.
Proof.
  revert z. induction cs as [|c cs IH]; intros z; simpl; [reflexivity|].
  rewrite IH. unfold tab_of. destruct (Z.eqb _ _); reflexivity.
Qed.

(** After [update_category_tabs], one tab per category is shown in order, and
    exactly one of them, the current category's, is marked selected. *)
Theorem tabs_one_selected (a : TodoApp) :
  P0 a ->
  let a' := fst (update_category_tabs a) in
  map snd (category_tabs a') = map (fun c => lit " " ++ c ++ lit " ") (get_categories (todo_list a))
  /\ exists cur, py_index (get_categories (todo_list a)) (current_category_idx a') = Some cur
     /\ List.filter (fun t => str_eqb (fst t) (lit "selected_category")) (category_tabs a')
        = [(lit "selected_category", lit " " ++ cur ++ lit " ")].
Proof.
  intros (Hu & Hi & _). rewrite uct_spec.
  pose proof (get_categories_length _ Hu) as Hn.
  assert (Hr : forall a1 : TodoApp, todo_list a1 = todo_list a ->
    (0 <= current_category_idx a1 < Z.of_nat (length (get_categories (todo_list a))))%Z ->
    map snd (category_tabs a1) = map (fun c => lit " " ++ c ++ lit " ") (get_categories (todo_list a))
    /\ exists cur, py_index (get_categories (todo_list a)) (current_category_idx a1) = Some cur
       /\ List.filter (fun t => str_eqb (fst t) (lit "selected_category")) (category_tabs a1)
          = [(lit "selected_category", lit " " ++ cur ++ lit " ")]).
  { intros a1 Hl Hi1. unfold category_tabs. rewrite Hl. split.
    - apply tabs_text.
    - destruct (py_index_in_range _ _ Hi1) as [cur Hcur]. exists cur. split; [exact Hcur|].
      rewrite enumerate_mark_filter by (intros x; unfold tab_of; simpl;
        first [apply str_eqb_refl|apply str_eqb_false; discriminate]).
      replace (0 <=? current_category_idx a1)%Z with true by (symmetry; apply Z.leb_le; lia).
      rewrite Z.sub_0_r. unfold py_index in Hcur.
      replace ((0 <=? current_category_idx a1)%Z
               && (current_category_idx a1 <? Z.of_nat (length (get_categories (todo_list a))))%Z)
        with true in Hcur by (symmetry; apply andb_true_intro; split; [apply Z.leb_le|apply Z.ltb_lt]; lia).
      rewrite Hcur. reflexivity. }
  destruct (_ <=? _)%Z eqn:E; apply Hr; simpl; try reflexivity.
  - lia.
  - apply Z.leb_gt in E. lia.
Qed.

Lemma tabs_one_selected_witness :
  P0 start_app
  /\ List.filter (fun t => str_eqb (fst t) (lit "selected_category"))
       (category_tabs (fst (update_category_tabs start_app)))
     = [(lit "selected_category", lit " a ")].
Proof.
  assert (H : P0 start_app).
  { split; [apply (bool_decide_unpack _); vm_compute; reflexivity|split; vm_compute; discriminate]. }
  split; [exact H|].
  destruct (tabs_one_selected start_app H) as (_ & cur & Hcur & Hf).
  rewrite Hf. assert (E : cur = lit "a").
  { rewrite uct_spec in Hcur. vm_compute in Hcur. injection Hcur as <-. reflexivity. }
  rewrite E. reflexivity.
Defined.

(** After [update_todo_list], an empty tab shows only the 'No todos' hint with
    the add key; otherwise one entry per item is shown and exactly one, the
    selected item's, is highlighted. *)
Theorem list_one_highlighted (a : TodoApp) (cur : str) :
  P1 a -> py_index (get_categories (todo_list a)) (current_category_idx a) = Some cur ->
  let a' := fst (update_todo_list a) in
  let tab := get_todos_by_category (todo_list a) cur in
  let ws := todo_widgets (todo_list a') (keymap a') cur (selected_idx a') in
  (tab = [] -> ws = [Message (lit "No todos in category '" ++ cur ++ lit "'. Press '"
                              ++ keymap a Add ++ lit "' to add one.")])
  /\ (tab <> [] -> length ws = length tab
      /\ exists r, py_index tab (selected_idx a') = Some r
         /\ List.filter is_selected ws = [entry_of true (heap (todo_list a) r)]).
Proof.
  intros (_ & _ & Hs) Hcur. cbv zeta.
  assert (Hgen : forall a1 : TodoApp, todo_list a1 = todo_list a -> keymap a1 = keymap a ->
    (get_todos_by_category (todo_list a) cur <> [] ->
      (0 <= selected_idx a1 < Z.of_nat (length (get_todos_by_category (todo_list a) cur)))%Z) ->
    let tab := get_todos_by_category (todo_list a) cur in
    let ws := todo_widgets (todo_list a1) (keymap a1) cur (selected_idx a1) in
    (tab = [] -> ws = [Message (lit "No todos in category '" ++ cur ++ lit "'. Press '"
                                ++ keymap a Add ++ lit "' to add one.")])
    /\ (tab <> [] -> length ws = length tab
        /\ exists r, py_index tab (selected_idx a1) = Some r
           /\ List.filter is_selected ws = [entry_of true (heap (todo_list a) r)])).
  { intros a1 Hl Hk Hsel. cbv zeta. unfold todo_widgets. rewrite Hl, Hk. split.
    - intros ->. reflexivity.
    - intros Hne. specialize (Hsel Hne).
      destruct (enumerate_mark entry_of 0 (selected_idx a1)
                  (map (heap (todo_list a)) (get_todos_by_category (todo_list a) cur))) as [|w ws] eqn:Ew.
      { apply (f_equal length) in Ew. rewrite enumerate_mark_length, length_map in Ew.
        simpl in Ew. lia. }
      rewrite <- Ew. rewrite enumerate_mark_length, length_map. split; [reflexivity|].
      destruct (py_index_in_range _ _ Hsel) as [r Hr]. exists r. split; [exact Hr|].
      rewrite enumerate_mark_filter.
      + replace (0 <=? selected_idx a1)%Z with true by (symmetry; apply Z.leb_le; lia).
        rewrite Z.sub_0_r, nth_error_map. unfold py_index in Hr.
        replace ((0 <=? selected_idx a1)%Z
                 && (selected_idx a1 <? Z.of_nat (length (get_todos_by_category (todo_list a) cur)))%Z)
          with true in Hr by (symmetry; apply andb_true_intro; split; [apply Z.leb_le|apply Z.ltb_lt]; lia).
        rewrite Hr. reflexivity.
      + intros x. apply str_eqb_refl.
      + intros x. unfold entry_of, item_style. simpl. destruct (done x); reflexivity. }
  rewrite (utl_spec a cur Hcur). unfold count_shown.
  destruct (Z.of_nat (length (get_todos_by_category (todo_list a) cur)) <=? selected_idx a)%Z eqn:E;
    apply Hgen; try reflexivity; simpl; intros Hne.
  - destruct (get_todos_by_category (todo_list a) cur); [contradiction|]. simpl. lia.
  - apply Z.leb_gt in E. lia.
Qed.

Lemma list_one_highlighted_witness :
  P1 fourth_selected
  /\ py_index (get_categories (todo_list fourth_selected)) (current_category_idx fourth_selected)
     = Some (lit "a")
  /\ length (todo_widgets (todo_list (fst (update_todo_list fourth_selected)))
       (keymap (fst (update_todo_list fourth_selected))) (lit "a")
       (selected_idx (fst (update_todo_list fourth_selected)))) = 4%nat.
Proof.
  assert (Hp : py_index (get_categories (todo_list fourth_selected)) (current_category_idx fourth_selected)
     = Some (lit "a")) by (vm_compute; reflexivity).
  assert (H1 : P1 fourth_selected).
  { split; [apply (bool_decide_unpack _); vm_compute; reflexivity|].
    split; [vm_compute; split; [discriminate|reflexivity]|vm_compute; discriminate]. }
  split; [exact H1|split; [exact Hp|]].
  assert (Hne : get_todos_by_category (todo_list fourth_selected) (lit "a") <> [])
    by (vm_compute; discriminate).
  rewrite (proj1 (proj2 (list_one_highlighted fourth_selected (lit "a") H1 Hp) Hne)).
  vm_compute. reflexivity.
Defined.

Lemma sum_list_with_ext {A} (f g : A -> nat) (l : list A) :
  (forall x, f x = g x) -> sum_list_with f l = sum_list_with g l.
Proof. intros H. induction l as [|x l IH]; simpl; [reflexivity|]. rewrite H, IH. reflexivity. Qed.

Lemma sum_list_with_plus {A} (f g : A -> nat) (l : list A) :
  sum_list_with (fun x => f x + g x) l = sum_list_with f l + sum_list_with g l.
Proof. induction l as [|x l IH]; simpl; [reflexivity|]. rewrite IH. lia. Qed.

Lemma sum_list_with_zero {A} (l : list A) : sum_list_with (fun _ => 0) l = 0.
Proof. induction l; simpl; auto. Qed.

Lemma sum_list_with_one (y : str) (cs : list str) :
  NoDup cs -> y ∈ cs -> sum_list_with (fun c => if decide (y = c) then 1 else 0) cs = 1.
Proof.
  induction cs as [|c cs IH]; intros Hnd Hy; [apply elem_of_nil in Hy; contradiction|].
  apply NoDup_cons in Hnd as [Hc Hnd]. simpl.
  destruct (decide (y = c)) as [->|Hne].
  - assert (H0 : sum_list_with (fun c0 => if decide (c = c0) then 1 else 0) cs = 0).
    { clear IH Hy. induction cs as [|c' cs IH']; simpl; [reflexivity|].
      destruct (decide (c = c')) as [->|]; [exfalso; apply Hc; left|].
      apply IH'; [intros H; apply Hc; right; exact H|apply NoDup_cons in Hnd as [_ Hnd]; exact Hnd]. }
    rewrite H0. reflexivity.
  - apply elem_of_cons in Hy as [->|Hy]; [contradiction|]. simpl. apply IH; assumption.
Qed.

Lemma tabs_partition_count (cs : list str) (h : ref -> TodoItem) (l : list ref) :
  NoDup cs -> (forall r, r ∈ l -> category (h r) ∈ cs) ->
  sum_list_with (fun c => length (filter (fun r => category (h r) = c) l)) cs = length l.
Proof.
  intros Hnd. induction l as [|x l IH]; intros Hl.
  - simpl. apply sum_list_with_zero.
  - assert (E : forall c, length (filter (fun r => category (h r) = c) (x :: l))
                 = (if decide (category (h x) = c) then 1 else 0)
                   + length (filter (fun r => category (h r) = c) l)).
    { intros c. destruct (decide (category (h x) = c)) as [Hx|Hx].
      - rewrite filter_cons_True by exact Hx. reflexivity.
      - rewrite filter_cons_False by exact Hx. reflexivity. }
    rewrite (sum_list_with_ext _ _ _ E), sum_list_with_plus.
    rewrite sum_list_with_one; [|exact Hnd|apply Hl; left].
    rewrite IH; [reflexivity|]. intros r Hr. apply Hl. right. exact Hr.
Qed.

(** When every item's category is known, the tabs show every item exactly
    once: the tab sizes add up to the number of items, and each item is in
    the tab of its category. *)
Theorem tabs_partition_items (s : TodoList) :
  cats_cover s ->
  sum_list_with (fun c => length (get_todos_by_category s c)) (get_categories s) = length (todos s)
  /\ forall r, r ∈ todos s ->
       category (heap s r) ∈ get_categories s /\ r ∈ get_todos_by_category s (category (heap s r)).
Proof.
  intros Hc. destruct (get_categories_sorted_aux s) as (_ & Hnd & Hel). split.
  - apply tabs_partition_count; [exact Hnd|]. intros r Hr. apply Hel. exact (Hc r Hr).
  - intros r Hr. split; [apply Hel; exact (Hc r Hr)|].
    unfold get_todos_by_category. apply list_elem_of_filter. auto.
Qed.

Lemma new_TodoApp_list (d : Disk) (km : action -> str) :
  todo_list (fst (new_TodoApp d km)) = fst (new_TodoList d).
Proof.
  unfold new_TodoApp. destruct (new_TodoList d) as [tl [u|e]]; [|reflexivity].
  rewrite (keeps_list_bind _ _ uct_keeps (fun _ => utl_keeps)). reflexivity.
Qed.

Lemma tabs_partition_items_witness :
  cats_cover (todo_list start_app)
  /\ sum_list_with (fun c => length (get_todos_by_category (todo_list start_app) c))
       (get_categories (todo_list start_app)) = 6%nat.
Proof.
  assert (H : cats_cover (todo_list start_app)).
  { unfold start_app. rewrite new_TodoApp_list. apply cats_cover_new_TodoList. }
  split; [exact H|]. rewrite (proj1 (tabs_partition_items _ H)). vm_compute. reflexivity.
Defined.

Lemma save_never_removes_files_witness :
  is_Some (disk_lookup (lit "a.md") (disk deleted_from_file))
  /\ is_Some (disk_lookup (lit "a.md") (disk (fst (save_todos deleted_from_file)))).
Proof.
  assert (H : is_Some (disk_lookup (lit "a.md") (disk deleted_from_file)))
    by (vm_compute; eexists; reflexivity).
  split; [exact H|exact (save_never_removes_files _ _ H)].
Defined.

Lemma write_files_result (gs : list (str * list ref)) (s : TodoList) :
  (snd (write_files gs s) = Ok tt /\ forall g, g ∈ map fst gs -> exists loc, open_w (fsys s) g = Ok loc)
  \/ exists f e, f ∈ map fst gs /\ open_w (fsys s) f = Raise e /\ snd (write_files gs s) = Raise e.
Proof.
  revert s. induction gs as [|[f rs] gs IH]; intros s.
  - left. split; [reflexivity|]. intros g Hg. apply elem_of_nil in Hg. contradiction.
  - rewrite write_files_cons_eq. destruct (open_w (fsys s) f) as [loc|e] eqn:Eo.
    + destruct (IH (fs_write loc (render_file f (map (heap s) rs)) s))
        as [(Hok & Hg)|(f' & e & Hf' & Ho & Hr)].
      * left. split; [exact Hok|]. intros g Hgin. simpl in Hgin.
        apply elem_of_cons in Hgin as [->|Hgin]; [eauto|].
        rewrite <- (open_w_fs_write loc (render_file f (map (heap s) rs))). exact (Hg g Hgin).
      * right. exists f', e. rewrite open_w_fs_write in Ho.
        split; [right; exact Hf'|split; assumption].
    + right. exists f, e. split; [left|split; [exact Eo|reflexivity]].
Qed.

(** [save_todos] succeeds exactly when [open] accepts every item's target
    file name; otherwise it raises the error of [open] on one of them. *)
Theorem save_fails_when_open_fails (s : TodoList) :
  (snd (save_todos s) = Ok tt
   /\ forall r, r ∈ todos s -> exists loc, open_w (fsys s) (target_file s r) = Ok loc)
  \/ exists r e, r ∈ todos s /\ open_w (fsys s) (target_file s r) = Raise e
       /\ snd (save_todos s) = Raise e.
Proof.
  destruct (save_todos_decompose s) as (F & gs & -> & _ & _ & _ & _ & Hk).
  destruct (write_files_result gs (set_todo_files F s)) as [(Hok & Hg)|(f & e & Hf & Hs & Hr)].
  - left. split; [exact Hok|]. intros r Hr. apply Hg, Hk. eauto.
  - right. apply Hk in Hf as (r & Hr' & <-). exists r, e. auto.
Qed.
